(** * argon-router-paths: the path template compiler, [parse] and [build]

    A shallow embedding of [packages/argon-router-paths/lib/compile.ts]
    and the properties of its specification.  The library functions the
    program calls ([split], [filter], [join], [match], [parseInt],
    [encodeURI], [decodeURI]) are written out after ECMA-262.

    Conventions of the embedding.
    - A JavaScript string is a sequence of UTF-16 code units.  It is
      represented by the bytes of its UTF-8 encoding (a Rocq [string]), an
      unpaired surrogate by the three bytes that the UTF-8 scheme gives its
      code (237, then 160..191, then 128..191).  The strings without an
      unpaired surrogate are the [well_formed] ones; the others are those on
      which [encodeURI] raises.  Every character the program itself looks at
      ('/', ':', '<', '>', '|', '+', '*', '?', '%', the word characters, the
      digits and the white space skipped by [parseInt]) is either ASCII or has a
      fixed UTF-8 spelling, and the program puts strings together only with
      a '/' between them, so its tests carry over byte by byte.
    - A JavaScript number is a double.  The numbers the program meets are
      those [parseInt] returns and those a record holds: [Fin z] is the
      integer [z], [Infinity] and [NegInfinity] are the two infinities, [NaN]
      is NaN.  [parseInt] rounds to the nearest double ([to_double]); the sign
      of zero and numbers with a fraction are not modelled.
    - A thrown exception is the [Throw] outcome, a normal return is [Ret].
    - An object used as a record is the finite map of its own properties, and
      its prototype is [Object.prototype]: reading a name that is no own
      property gives the member of [Object.prototype] of that name, and
      undefined when there is none ([read_property]). *)

From Stdlib Require Import ZArith NArith Ascii String List Bool Lia.
From stdpp Require Import gmap strings list pretty.

Set Warnings "-register-all".

Local Open Scope bool_scope.
Local Open Scope list_scope.

(** ** Outcomes: normal return or exception *)

Inductive error :=
| NameRequired (path : string)      (* compile: "Invalid path ... Name for argument must be provided" *)
| MissingParameter (name : string)  (* build: "Cannot build path without required parameter ..." *)
| ObjectParameter                   (* stringifyParam: "Paths doesn't support object parameters" *)
| URIError                          (* decodeURI on a malformed escape,
                                       encodeURI on an unpaired surrogate *)
| TypeError.                        (* property read on undefined *)

Inductive outcome (A : Type) :=
| Ret (a : A)
| Throw (e : error).
Arguments Ret {A} a.
Arguments Throw {A} e.

Global Instance outcome_ret : MRet outcome := fun A a => Ret a.

Global Instance outcome_bind : MBind outcome := fun A B k m =>
  match m with
  | Ret a => k a
  | Throw e => Throw e
  end.

Definition dquote : string := String (ascii_of_nat 34) "".

Definition message (e : error) : string :=
  match e with
  | NameRequired path =>
      "Invalid path: " +:+ dquote +:+ path +:+ dquote
        +:+ ". Name for argument must be provided"
  | MissingParameter name =>
      "Cannot build path without required parameter: "
        +:+ dquote +:+ name +:+ dquote
  | ObjectParameter => "Paths doesn't support object parameters"
  | URIError => "URI malformed"
  | TypeError => "Cannot read properties of undefined"
  end.

(** ** Characters and strings *)

Definition code (c : ascii) : N := N_of_ascii c.

Definition between (lo hi : ascii) (c : ascii) : bool :=
  (code lo <=? code c)%N && (code c <=? code hi)%N.

Definition is_digit (c : ascii) : bool := between "0" "9" c.

(** [\w] of a JavaScript regular expression without flags: [A-Za-z0-9_]. *)
Definition is_word (c : ascii) : bool :=
  between "a" "z" c || between "A" "Z" c || is_digit c || Ascii.eqb c "_".

(** [!s] for a string: only the empty string is falsy. *)
Definition truthy_string (s : string) : bool :=
  match s with
  | EmptyString => false
  | String _ _ => true
  end.

(** [s.split(sep)] for a one-character separator: the pieces between the
    separators, the empty ones included. *)
Fixpoint split (sep : ascii) (s : string) : list string :=
  match s with
  | EmptyString => [EmptyString]
  | String c s' =>
      if Ascii.eqb c sep then EmptyString :: split sep s'
      else match split sep s' with
           | [] => [String c EmptyString]
           | p :: ps => String c p :: ps
           end
  end.

(** [s.split(sep).filter(Boolean)]. *)
Definition segments (sep : ascii) (s : string) : list string :=
  List.filter truthy_string (split sep s).

(** [xs.join(sep)]. *)
Fixpoint join (sep : string) (xs : list string) : string :=
  match xs with
  | [] => EmptyString
  | [x] => x
  | x :: rest => x +:+ sep +:+ join sep rest
  end.

(** [s.includes(c)] for a one-character needle. *)
Fixpoint includes_char (c : ascii) (s : string) : bool :=
  match s with
  | EmptyString => false
  | String d s' => Ascii.eqb d c || includes_char c s'
  end.

(** [s.replace(c, '')] with a string pattern: only the first occurrence. *)
Fixpoint remove_first (c : ascii) (s : string) : string :=
  match s with
  | EmptyString => EmptyString
  | String d s' => if Ascii.eqb d c then s' else String d (remove_first c s')
  end.

(** The longest prefix of [s] whose characters satisfy [p], and the rest. *)
Fixpoint span (p : ascii -> bool) (s : string) : string * string :=
  match s with
  | EmptyString => (EmptyString, EmptyString)
  | String c s' =>
      if p c then let '(a, b) := span p s' in (String c a, b)
      else (EmptyString, s)
  end.

(** ** The parameter grammar [/:(\w+)(<[\w|]+>)?([+*?])?/]

    The expression is not anchored: [block.match(regexp)] finds the leftmost
    ':' that is followed by a word character.  After it, [\w+] is greedy and
    everything behind it is optional, so the first attempt (the longest run
    of word characters) always succeeds; group 2 takes part only when '<',
    a non-empty run of [[\w|]] and '>' follow at once, and group 3 when the
    next character is one of '+', '*', '?'. *)

Record matches := {
  m_name : string;                (* matches[1] *)
  m_generic : option string;      (* matches[2], undefined when absent *)
  m_modificator : option ascii    (* matches[3], undefined when absent *)
}.

Definition is_generic_char (c : ascii) : bool := is_word c || Ascii.eqb c "|".

Definition is_modificator (c : ascii) : bool :=
  Ascii.eqb c "+" || Ascii.eqb c "*" || Ascii.eqb c "?".

(** Group 2 at the start of [s]: the captured text and what follows it. *)
Definition match_generic (s : string) : option (string * string) :=
  match s with
  | String "<" s1 =>
      match span is_generic_char s1 with
      | (String b body, String ">" s2) =>
          Some (String "<" (String b body +:+ ">"), s2)
      | _ => None
      end
  | _ => None
  end.

(** Group 3 at the start of [s]. *)
Definition match_modificator (s : string) : option ascii :=
  match s with
  | String c _ => if is_modificator c then Some c else None
  | EmptyString => None
  end.

(** The expression behind its ':', tried at the start of [s]. *)
Definition match_here (s : string) : option matches :=
  match span is_word s with
  | (EmptyString, _) => None
  | (name, r1) =>
      let '(generic, r2) :=
        match match_generic r1 with
        | Some (g, r) => (Some g, r)
        | None => (None, r1)
        end in
      Some {| m_name := name; m_generic := generic;
              m_modificator := match_modificator r2 |}
  end.

(** [block.match(regexp)]: the leftmost match, [None] for JavaScript's null. *)
Fixpoint regexp_match (block : string) : option matches :=
  match block with
  | EmptyString => None
  | String c rest =>
      if Ascii.eqb c ":" then
        match match_here rest with
        | Some m => Some m
        | None => regexp_match rest
        end
      else regexp_match rest
  end.

(** ** Percent encoding: [encodeURI] and [decodeURI] (ECMA-262, 19.2.6) *)

Definition is_alpha (c : ascii) : bool := between "a" "z" c || between "A" "Z" c.

(** uriReserved, with the '#' that [encodeURI] and [decodeURI] add to it. *)
Definition uri_reserved (c : ascii) : bool := includes_char c ";/?:@&=+$,#".

(** uriUnescaped: the alphanumerics and the marks. *)
Definition uri_unescaped (c : ascii) : bool :=
  is_alpha c || is_digit c || includes_char c "-_.!~*'()".

Definition hex_digit (n : N) : ascii :=
  if (n <? 10)%N then ascii_of_N (48 + n) else ascii_of_N (55 + n).

Definition hex_value (c : ascii) : option N :=
  if is_digit c then Some (code c - 48)%N
  else if between "A" "F" c then Some (code c - 55)%N
  else if between "a" "f" c then Some (code c - 87)%N
  else None.

(** [%XY] for one byte, in upper case hexadecimal. *)
Definition escape (c : ascii) : string :=
  String "%" (String (hex_digit (code c / 16))
    (String (hex_digit (code c mod 16)) EmptyString)).

(** The number of leading 1 bits of a byte, capped at 5. *)
Definition leading_ones (b : N) : nat :=
  if (b <? 128)%N then 0
  else if (b <? 192)%N then 1
  else if (b <? 224)%N then 2
  else if (b <? 240)%N then 3
  else if (b <? 248)%N then 4
  else 5.

Definition continuation (b : N) : bool := (128 <=? b)%N && (b <=? 191)%N.

(** The well-formed multi-byte UTF-8 sequences (no overlong form, no
    surrogate, nothing above U+10FFFF). *)
Definition valid_octets (octets : list N) : bool :=
  match octets with
  | [a; b] => (194 <=? a)%N && (a <=? 223)%N && continuation b
  | [a; b; c] =>
      ((a =? 224)%N && (160 <=? b)%N && (b <=? 191)%N
       || (225 <=? a)%N && (a <=? 236)%N && continuation b
       || (a =? 237)%N && (128 <=? b)%N && (b <=? 159)%N
       || (238 <=? a)%N && (a <=? 239)%N && continuation b)
      && continuation c
  | [a; b; c; d] =>
      ((a =? 240)%N && (144 <=? b)%N && (b <=? 191)%N
       || (241 <=? a)%N && (a <=? 243)%N && continuation b
       || (a =? 244)%N && (128 <=? b)%N && (b <=? 143)%N)
      && continuation c && continuation d
  | _ => false
  end.

(** The strings without an unpaired surrogate: well-formed UTF-8. *)
Fixpoint well_formed (s : string) : bool :=
  match s with
  | EmptyString => true
  | String a s1 =>
      if (code a <? 128)%N then well_formed s1
      else match s1 with
      | String b s2 =>
          if valid_octets [code a; code b] then well_formed s2
          else match s2 with
          | String c s3 =>
              if valid_octets [code a; code b; code c] then well_formed s3
              else match s3 with
              | String d s4 =>
                  valid_octets [code a; code b; code c; code d]
                  && well_formed s4
              | EmptyString => false
              end
          | EmptyString => false
          end
      | EmptyString => false
      end
  end.

(** Encode (ECMA-262, 19.2.6) on a string without unpaired surrogate:
    every byte outside the unescaped set is escaped; the bytes of a
    multi-byte character are all outside it. *)
Fixpoint Encode (s : string) : string :=
  match s with
  | EmptyString => EmptyString
  | String c s' =>
      if uri_reserved c || uri_unescaped c then String c (Encode s')
      else escape c +:+ Encode s'
  end.

(** [encodeURI]: a URIError when the string holds an unpaired surrogate. *)
Definition encodeURI (s : string) : outcome string :=
  if well_formed s then Ret (Encode s) else Throw URIError.

(** The string made of the unpaired surrogate U+D800. *)
Definition lone_surrogate : string :=
  String "237" (String "160" (String "128" EmptyString)).

(** Two hexadecimal digits at the start of [s]: their value and the rest. *)
Definition read_hex2 (s : string) : option (N * string) :=
  match s with
  | String a (String b r) =>
      match hex_value a, hex_value b with
      | Some x, Some y => Some (16 * x + y, r)%N
      | _, _ => None
      end
  | _ => None
  end.

(** [n] further escapes [%XY] at the start of [s]: their bytes. *)
Fixpoint read_escapes (n : nat) (s : string) : option (list N) :=
  match n with
  | O => Some []
  | S k =>
      match s with
      | String "%" r =>
          match read_hex2 r with
          | Some (b, r') => option_map (cons b) (read_escapes k r')
          | None => None
          end
      | _ => None
      end
  end.

Fixpoint string_of_codes (l : list N) : string :=
  match l with
  | [] => EmptyString
  | b :: l' => String (ascii_of_N b) (string_of_codes l')
  end.

(** One escape, given the text [r] behind its '%': the text it stands for and
    the number of characters of [r] it takes.  An escape of a reserved
    character is kept as it is written. *)
Definition decode_escape (r : string) : outcome (string * nat) :=
  match read_hex2 r with
  | None => Throw URIError
  | Some (b, r') =>
      match leading_ones b with
      | 0 =>
          if uri_reserved (ascii_of_N b)
          then Ret (String "%" (substring 0 2 r), 2)
          else Ret (String (ascii_of_N b) EmptyString, 2)
      | 1 => Throw URIError
      | S (S (S (S (S _)))) => Throw URIError
      | S n =>
          match read_escapes n r' with
          | None => Throw URIError
          | Some more =>
              if valid_octets (b :: more)
              then Ret (string_of_codes (b :: more), 2 + 3 * n)
              else Throw URIError
          end
      end
  end.

(** The decoding loop; [skip] counts the characters already taken by the
    escape that was just decoded. *)
Fixpoint decode_from (skip : nat) (s : string) : outcome string :=
  match s with
  | EmptyString => Ret EmptyString
  | String c r =>
      match skip with
      | S k => decode_from k r
      | O =>
          if Ascii.eqb c "%" then
            '(text, taken) ← decode_escape r;
            rest ← decode_from taken r;
            Ret (text +:+ rest)
          else
            rest ← decode_from 0 r;
            Ret (String c rest)
      end
  end.

Definition decodeURI (s : string) : outcome string := decode_from 0 s.

(** ** Values, numbers and [parseInt] *)

Inductive number :=
| NaN
| Fin (z : Z)
| Infinity
| NegInfinity.

Inductive value :=
| VUndefined
| VNull
| VBool (b : bool)
| VNumber (n : number)
| VString (s : string)
| VArray (items : list value)
| VObject                       (* any object that is not an array *)
| VFunction (source : string).  (* a function; [source] is its [toString()] *)

Definition isNaN (n : number) : bool :=
  match n with
  | NaN => true
  | _ => false
  end.

(** [!!v]: the falsy values are undefined, null, false, 0, NaN and ''. *)
Definition truthy (v : value) : bool :=
  match v with
  | VUndefined | VNull => false
  | VBool b => b
  | VNumber NaN => false
  | VNumber (Fin z) => negb (z =? 0)%Z
  | VNumber _ => true
  | VString s => truthy_string s
  | VArray _ | VObject | VFunction _ => true
  end.

(** The Number value of an integer: the nearest double, a tie going to the
    one with an even significand, and an infinity from [2^1024 - 2^970] on.
    Below [2^53] every integer is a double. *)
Definition to_double (z : Z) : number :=
  let m := Z.abs z in
  if (m <? 2 ^ 53)%Z then Fin z
  else
    let e := (Z.log2 m - 52)%Z in
    let q := (m / 2 ^ e)%Z in
    let r := (m mod 2 ^ e)%Z in
    let half := (2 ^ (e - 1))%Z in
    let q' :=
      if (r <? half)%Z then q
      else if (half <? r)%Z then (q + 1)%Z
      else if Z.even q then q else (q + 1)%Z in
    let m' := (q' * 2 ^ e)%Z in
    if (2 ^ 1024 <=? m')%Z
    then if (z <? 0)%Z then NegInfinity else Infinity
    else Fin (Z.sgn z * m').

(** StrWhiteSpaceChar: TAB, LF, VT, FF, CR, SP, and in UTF-8 U+00A0, U+1680,
    U+2000..U+200A, U+2028, U+2029, U+202F, U+205F, U+3000, U+FEFF. *)
Definition space1 (a : ascii) : bool :=
  ((9 <=? code a) && (code a <=? 13) || (code a =? 32))%N.

Definition space2 (a b : ascii) : bool :=
  ((code a =? 194) && (code b =? 160))%N.

Definition space3 (a b c : ascii) : bool :=
  ((code a =? 225) && (code b =? 154) && (code c =? 128)
   || (code a =? 226) && (code b =? 128)
      && ((128 <=? code c) && (code c <=? 138)
          || (code c =? 168) || (code c =? 169) || (code c =? 175))
   || (code a =? 226) && (code b =? 129) && (code c =? 159)
   || (code a =? 227) && (code b =? 128) && (code c =? 128)
   || (code a =? 239) && (code b =? 187) && (code c =? 191))%N.

Fixpoint trim_start (s : string) : string :=
  match s with
  | EmptyString => EmptyString
  | String a s1 =>
      if space1 a then trim_start s1
      else match s1 with
           | String b s2 =>
               if space2 a b then trim_start s2
               else match s2 with
                    | String c s3 => if space3 a b c then trim_start s3 else s
                    | EmptyString => s
                    end
           | EmptyString => s
           end
  end.

(** The value of [c] as a digit of the given radix. *)
Definition digit_value (radix : Z) (c : ascii) : option Z :=
  let v :=
    if is_digit c then Some (Z.of_N (code c) - 48)%Z
    else if between "a" "z" c then Some (Z.of_N (code c) - 87)%Z
    else if between "A" "Z" c then Some (Z.of_N (code c) - 55)%Z
    else None in
  match v with
  | Some d => if (d <? radix)%Z then Some d else None
  | None => None
  end.

(** The integer written by the longest prefix of digits of [s]; [acc] is the
    value read so far, [None] while no digit has been read. *)
Fixpoint read_digits (radix : Z) (s : string) (acc : option Z) : option Z :=
  match s with
  | EmptyString => acc
  | String c s' =>
      match digit_value radix c with
      | Some d => read_digits radix s' (Some (radix * default 0%Z acc + d)%Z)
      | None => acc
      end
  end.

(** [parseInt(input)] without a radix: leading white space, a sign, a [0x]
    prefix, then the longest prefix of digits; NaN when that prefix is empty,
    otherwise the Number value of the integer the digits write (all of
    them, the way V8 reads them). *)
Definition parseInt (input : string) : number :=
  let s := trim_start input in
  let '(sign, s) :=
    match s with
    | String "-" r => ((-1)%Z, r)
    | String "+" r => (1%Z, r)
    | _ => (1%Z, s)
    end in
  let '(radix, s) :=
    match s with
    | String "0" (String x r) =>
        if Ascii.eqb x "x" || Ascii.eqb x "X" then (16%Z, r) else (10%Z, s)
    | _ => (10%Z, s)
    end in
  match read_digits radix s None with
  | None => NaN
  | Some n => to_double (sign * n)
  end.

(** ** [Number.prototype.toString] (ECMA-262, Number::toString, radix 10)

    For a double [x] the digits are those of the integer [s] with the
    fewest digits [k] such that [s * 10^(n-k)] rounds to [x]; they are
    followed by [n - k] zeros while [n <= 21] and written with an exponent
    from there on.  Below [2^53] that is the numeral of the integer. *)

Definition number_eqb (a b : number) : bool :=
  match a, b with
  | NaN, NaN | Infinity, Infinity | NegInfinity, NegInfinity => true
  | Fin x, Fin y => (x =? y)%Z
  | _, _ => false
  end.

(** The number of decimal digits of a positive integer. *)
Definition decimal_length (x : Z) : Z := Z.of_nat (String.length (pretty x)).

(** The [s] of [k] digits for the exponent [n], if there is one: of the two
    multiples of [10^(n-k)] around [x] the one nearer to [x] that rounds to
    [x], the even one when both are as near. *)
Definition shortest_at (x n k : Z) : option Z :=
  let unit := (10 ^ (n - k))%Z in
  let lo := (x / unit)%Z in
  let fits (s : Z) : bool :=
    (10 ^ (k - 1) <=? s)%Z && (s <? 10 ^ k)%Z
    && number_eqb (to_double (s * unit)) (Fin x) in
  let below := (x - lo * unit)%Z in
  let above := ((lo + 1) * unit - x)%Z in
  match fits lo, fits (lo + 1)%Z with
  | true, true =>
      if (below <? above)%Z then Some lo
      else if (above <? below)%Z then Some (lo + 1)%Z
      else if Z.even lo then Some lo else Some (lo + 1)%Z
  | true, false => Some lo
  | false, true => Some (lo + 1)%Z
  | false, false => None
  end.

(** The search for the least [k], from [k] upwards; [d] is the number of
    digits of [x], and [n] is [d], or [d + 1] when [x] lies just below
    [10^d].  The result is [(s, n)]. *)
Fixpoint shortest (x d : Z) (tries : nat) (k : Z) : option (Z * Z) :=
  match tries with
  | O => None
  | S tries' =>
      match shortest_at x d k, shortest_at x (d + 1) k with
      | Some s, _ => Some (s, d)
      | None, Some s => Some (s, (d + 1)%Z)
      | None, None => shortest x d tries' (k + 1)%Z
      end
  end.

Fixpoint zeros (n : nat) : string :=
  match n with
  | O => EmptyString
  | S n' => String "0" (zeros n')
  end.

(** The numeral of a positive integer-valued double. *)
Definition numeral (x : Z) : string :=
  if (x <? 2 ^ 53)%Z then pretty x
  else
    match shortest x (decimal_length x) 17 1 with
    | None => pretty x
    | Some (s, n) =>
        let k := decimal_length s in
        if (n <=? 21)%Z then pretty s +:+ zeros (Z.to_nat (n - k))
        else
          match pretty s with
          | String c EmptyString =>
              String c EmptyString +:+ "e+" +:+ pretty (n - 1)%Z
          | String c rest =>
              String c (String "." rest) +:+ "e+" +:+ pretty (n - 1)%Z
          | EmptyString => EmptyString
          end
    end.

Definition Number_toString (n : number) : string :=
  match n with
  | NaN => "NaN"
  | Infinity => "Infinity"
  | NegInfinity => "-Infinity"
  | Fin z =>
      if (Z.abs z <? 2 ^ 53)%Z then pretty z
      else
        match to_double z with
        | Fin x => if (x <? 0)%Z then "-" +:+ numeral (- x) else numeral x
        | Infinity => "Infinity"
        | NegInfinity => "-Infinity"
        | NaN => "NaN"
        end
  end.

(** [v.toString()] of a primitive or a function. *)
Definition toString (v : value) : string :=
  match v with
  | VUndefined => "undefined"
  | VNull => "null"
  | VBool true => "true"
  | VBool false => "false"
  | VNumber n => Number_toString n
  | VString s => s
  | VFunction source => source
  | VArray _ | VObject => EmptyString
  end.

(** ** Rules, controls, validators and parsers *)

Inductive rule_type :=
| TString
| TNumber
| TUnion (values : list string).

Record array_rules := {
  minLength : option nat;
  maxLength : option nat
}.

Record RawRules := {
  required : bool;
  type : rule_type;
  array : option array_rules
}.

(** [UrlControls]: a cursor into the raw segments.  The state of the closure
    (the array and the index [i]) is kept as the segments from [i] on:
    [getInput] reads the first of them, [next] drops it. *)
Definition UrlControls := list string.

Definition createControls (blocks : list string) (startPosition : nat)
  : UrlControls := drop startPosition blocks.

Definition getInput (controls : UrlControls) : option string := head controls.

Definition next (controls : UrlControls) : UrlControls := tail controls.

Definition Validator := UrlControls -> bool.
Definition Parser := UrlControls -> value.

(** [!input] for a [string | undefined]. *)
Definition truthy_input (input : option string) : bool :=
  match input with
  | Some s => truthy_string s
  | None => false
  end.

(** [n < (maxLength ?? Infinity)] and [n < (minLength ?? 0)]. *)
Definition below_max (n : nat) (maxLength : option nat) : bool :=
  match maxLength with
  | Some m => n <? m
  | None => true
  end.

Definition above_max (n : nat) (maxLength : option nat) : bool :=
  match maxLength with
  | Some m => m <? n
  | None => false
  end.

Definition below_min (n : nat) (minLength : option nat) : bool :=
  n <? default 0 minLength.

Definition baseValidator (rules : RawRules) (input : option string) : bool :=
  if required rules && negb (truthy_input input) then false
  else if negb (truthy_input input) then true
  else
    let input := default EmptyString input in
    match type rules with
    | TUnion values => bool_decide (input ∈ values)
    | TNumber => negb (isNaN (parseInt input))
    | TString => true
    end.

(** The [while] loop of the array validator.  [result] is the length of the
    array of [true]s the source collects; [None] stands for the [return false]
    inside the loop, [Some n] for leaving the loop with [n] entries.  In both
    loops [current] is what [getInput] returns, and an empty [controls] is
    the cursor behind the last segment, where [getInput] is undefined. *)
Fixpoint validate_items (rules : RawRules) (maxLength : option nat)
    (controls : UrlControls) (result : nat) : option nat :=
  match controls with
  | [] => Some result
  | current :: rest =>
      if truthy_string current && below_max result maxLength then
        if negb (baseValidator rules (Some current)) then None
        else validate_items rules maxLength (next (current :: rest)) (S result)
      else Some result
  end.

Definition generateValidator (rules : RawRules) : Validator :=
  fun controls =>
    match array rules with
    | Some bounds =>
        match validate_items rules (maxLength bounds) controls 0 with
        | None => false
        | Some n =>
            if above_max n (maxLength bounds) || below_min n (minLength bounds)
            then false
            else true
        end
    | None =>
        let input := getInput controls in
        if required rules && negb (truthy_input input) then false
        else if negb (truthy_input input) then true
        else baseValidator rules input
    end.

Definition baseParser (rules : RawRules) (input : option string) : value :=
  if required rules && negb (truthy_input input) then VNull
  else if negb (truthy_input input) then VUndefined
  else
    let input := default EmptyString input in
    match type rules with
    | TNumber => VNumber (parseInt input)
    | _ => VString input
    end.

(** The [while] loop of the array parser: [result] is the array so far. *)
Fixpoint parse_items (rules : RawRules) (maxLength : option nat)
    (controls : UrlControls) (result : list value) : list value :=
  match controls with
  | [] => result
  | current :: rest =>
      if truthy_string current && below_max (length result) maxLength then
        parse_items rules maxLength (next (current :: rest))
          (result ++ [baseParser rules (Some current)])
      else result
  end.

Definition generateParser (rules : RawRules) : Parser :=
  fun controls =>
    let input := getInput controls in
    match array rules with
    | Some bounds =>
        let result := parse_items rules (maxLength bounds) controls [] in
        if above_max (length result) (maxLength bounds)
           || below_min (length result) (minLength bounds)
        then VUndefined
        else VArray result
    | None =>
        if required rules && negb (truthy_input input) then VNull
        else if negb (truthy_input input) then VUndefined
        else baseParser rules input
    end.

(** ** Blocks and the template compiler *)

Inductive Block :=
| ParameterBlock (name : string) (validator : Validator) (parser : Parser)
                 (required : bool)       (* type: 'parameter' *)
| PartBlock (value : string).            (* type: 'part' *)

(** The rules [compile] derives from a match of the parameter grammar. *)
Definition with_type (rules : RawRules) (t : rule_type) : RawRules :=
  {| required := required rules; type := t; array := array rules |}.

Definition with_array (rules : RawRules) (a : array_rules) : RawRules :=
  {| required := required rules; type := type rules; array := Some a |}.

Definition with_required (rules : RawRules) (r : bool) : RawRules :=
  {| required := r; type := type rules; array := array rules |}.

(** [if (generic) { ... }]: the type written between '<' and '>'. *)
Definition generic_rules (generic : option string) (rules : RawRules)
  : RawRules :=
  match generic with
  | Some generic =>
      if truthy_string generic then
        let type := remove_first ">" (remove_first "<" generic) in
        let rules :=
          if String.eqb type "number" then with_type rules TNumber
          else rules in
        if includes_char "|" type
        then with_type rules (TUnion (segments "|" type))
        else rules
      else rules
  | None => rules
  end.

(** [switch (modificator) { ... }]. *)
Definition modificator_rules (modificator : option ascii) (rules : RawRules)
  : RawRules :=
  match modificator with
  | Some "*"%char =>
      with_array rules {| minLength := None; maxLength := None |}
  | Some "+"%char =>
      with_array rules {| minLength := Some 1; maxLength := None |}
  | Some "?"%char => with_required rules false
  | _ => rules
  end.

Definition derive_rules (m : matches) : RawRules :=
  modificator_rules (m_modificator m)
    (generic_rules (m_generic m)
       {| required := true; type := TString; array := None |}).

Definition parameter_block (name : string) (rules : RawRules) : Block :=
  ParameterBlock name (generateValidator rules) (generateParser rules)
                 (required rules).

(** The [for] loop of [compile] over the tokens of the template. *)
Fixpoint compile_loop (path : string) (parsedBlocks : list string)
    (blocks : list Block) : outcome (list Block) :=
  match parsedBlocks with
  | [] => Ret blocks
  | block :: rest =>
      if negb (truthy_string block) then compile_loop path rest blocks
      else
        match regexp_match block with
        | None => compile_loop path rest (blocks ++ [PartBlock block])
        | Some m =>
            if negb (truthy_string (m_name m)) then Throw (NameRequired path)
            else
              compile_loop path rest
                (blocks ++ [parameter_block (m_name m) (derive_rules m)])
        end
  end.

Definition compile_blocks (path : string) : outcome (list Block) :=
  compile_loop path (segments "/" path) [].

(** ** [parse] and [build] over the compiled blocks *)

Record ParseResult := {
  path : string;
  params : option (gmap string value)   (* [None] is null *)
}.

(** [params[name] = v] on an object made by the literal [{}]: an own property
    is written, except for the name [__proto__], whose setter on
    [Object.prototype] leaves the own properties as they are. *)
Definition set_property (name : string) (v : value)
    (record : gmap string value) : gmap string value :=
  if String.eqb name "__proto__" then record else <[name := v]> record.

(** The [for] loop of [parse]; [None] is the [return null]. *)
Fixpoint parse_loop (blocks : list Block) (parsed : list string) (i : nat)
    (params : option (gmap string value))
  : option (option (gmap string value)) :=
  match blocks with
  | [] => Some params
  | compiledBlock :: rest =>
      let rawBlock := parsed !! i in
      match compiledBlock with
      | PartBlock value =>
          if bool_decide (Some value = rawBlock)
          then parse_loop rest parsed (S i) params
          else None
      | ParameterBlock name validator parser _ =>
          if negb (validator (createControls parsed i)) then None
          else
            let parsedPayload := parser (createControls parsed i) in
            match parsedPayload with
            | VNull => None
            | _ =>
                let params := default ∅ params in
                parse_loop rest parsed (S i)
                  (Some (set_property name parsedPayload params))
            end
      end
  end.

Definition parse_blocks (blocks : list Block) (input : string)
  : outcome (option ParseResult) :=
  decoded ← decodeURI input;
  let parsed := segments "/" decoded in
  Ret (match parse_loop blocks parsed 0 None with
       | None => None
       | Some params => Some {| path := input; params := params |}
       end).

(** [stringifyParam]: an array is joined with '/', element by element; any
    other object is refused, and [typeof null] is 'object' too; a falsy
    primitive gives the empty string. *)
Fixpoint stringifyParam (param : value) : outcome string :=
  match param with
  | VArray items =>
      let fix map_items (l : list value) : outcome (list string) :=
        match l with
        | [] => Ret []
        | item :: l' =>
            s ← stringifyParam item;
            ss ← map_items l';
            Ret (s :: ss)
        end in
      match items with
      | [] => Ret EmptyString
      | _ => parts ← map_items items; Ret (join "/" parts)
      end
  | VNull | VObject => Throw ObjectParameter
  | _ => if negb (truthy param) then Ret EmptyString else Ret (toString param)
  end.

(** [items.map((item) => stringifyParam(item))]. *)
Fixpoint stringify_items (items : list value) : outcome (list string) :=
  match items with
  | [] => Ret []
  | item :: rest =>
      s ← stringifyParam item;
      ss ← stringify_items rest;
      Ret (s :: ss)
  end.

(** The members of [Object.prototype] (ECMA-262, 20.1.3 and B.2.2): the
    functions, with the text V8 prints for a built-in function, and the
    accessor [__proto__], whose getter returns the prototype of the object
    read, here [Object.prototype] itself. *)
Definition native_function (name : string) : value :=
  VFunction ("function " +:+ name +:+ "() { [native code] }").

Definition Object_prototype (name : string) : option value :=
  if String.eqb name "constructor" then Some (native_function "Object")
  else if String.eqb name "__proto__" then Some VObject
  else if bool_decide
            (name ∈ ["hasOwnProperty"; "isPrototypeOf"; "propertyIsEnumerable";
                     "toLocaleString"; "toString"; "valueOf";
                     "__defineGetter__"; "__defineSetter__";
                     "__lookupGetter__"; "__lookupSetter__"])
  then Some (native_function name)
  else None.

(** [record[name]] on an object with the prototype [Object.prototype]: the
    own property, else the inherited member, else undefined. *)
Definition read_property (record : gmap string value) (name : string)
  : value :=
  match record !! name with
  | Some v => v
  | None => default VUndefined (Object_prototype name)
  end.

(** [anyParams[name]]: a property read; on undefined it is a TypeError. *)
Definition get_param (anyParams : option (gmap string value)) (name : string)
  : outcome value :=
  match anyParams with
  | None => Throw TypeError
  | Some record => Ret (read_property record name)
  end.

(** The [for] loop of [build]. *)
Fixpoint build_loop (blocks : list Block)
    (anyParams : option (gmap string value)) (result : list string)
  : outcome (list string) :=
  match blocks with
  | [] => Ret result
  | PartBlock value :: rest => build_loop rest anyParams (result ++ [value])
  | ParameterBlock name _ _ required :: rest =>
      v ← get_param anyParams name;
      if negb (truthy v) && required then Throw (MissingParameter name)
      else if negb (truthy v) && negb required
      then build_loop rest anyParams result
      else
        s ← stringifyParam v;
        build_loop rest anyParams (result ++ [s])
  end.

Definition build_blocks (blocks : list Block)
    (params : option (gmap string value)) : outcome string :=
  result ← build_loop blocks params [];
  encodeURI ("/" +:+ join "/" (List.filter truthy_string result)).

Record CompileResult := {
  parse : string -> outcome (option ParseResult);
  build : option (gmap string value) -> outcome string
}.

Definition compile (path : string) : outcome CompileResult :=
  blocks ← compile_blocks path;
  Ret {| parse := parse_blocks blocks; build := build_blocks blocks |}.

(** [compile(template).parse(input)] and [compile(template).build(params)]. *)
Definition compile_parse (template input : string)
  : outcome (option ParseResult) :=
  c ← compile template; parse c input.

Definition compile_build (template : string)
    (params : option (gmap string value)) : outcome string :=
  c ← compile template; build c params.

(** What [compile] makes of one token of the template. *)
Definition compile_token (block : string) : Block :=
  match regexp_match block with
  | None => PartBlock block
  | Some m => parameter_block (m_name m) (derive_rules m)
  end.

(** A token mentions a parameter when some ':' in it is followed by a word
    character. *)
Fixpoint mentions_parameter (token : string) : bool :=
  match token with
  | EmptyString => false
  | String c rest =>
      Ascii.eqb c ":"
        && match rest with
           | String d _ => is_word d
           | EmptyString => false
           end
      || mentions_parameter rest
  end.

(** A raw segment: not empty and free of the separator. *)
Definition clean (sep : ascii) (t : string) : Prop :=
  truthy_string t = true /\ includes_char sep t = false.

Fixpoint escapes (l : list ascii) : string :=
  match l with
  | [] => EmptyString
  | c :: l' => escape c +:+ escapes l'
  end.

Definition is_part (b : Block) : bool :=
  match b with
  | PartBlock _ => true
  | ParameterBlock _ _ _ _ => false
  end.

(** The rules of a parameter written without type and modifier. *)
Definition plain_rules : RawRules :=
  {| required := true; type := TString; array := None |}.

(** The rules of [:name<number>]. *)
Definition number_rules : RawRules :=
  {| required := true; type := TNumber; array := None |}.

(** The array bounds of the modifier '*'. *)
Definition zero_or_more : array_rules :=
  {| minLength := None; maxLength := None |}.

(** A token that compiles to an array parameter: its modifier is '*' or '+'. *)
Definition array_token (token : string) : bool :=
  match regexp_match token with
  | Some m =>
      match m_modificator m with
      | Some c => Ascii.eqb c "*" || Ascii.eqb c "+"
      | None => false
      end
  | None => false
  end.

(** A block that looks at one raw segment only: a literal, or a parameter
    whose rules have no array bounds. *)
Definition single_block (b : Block) : Prop :=
  match b with
  | PartBlock _ => True
  | ParameterBlock _ validator parser _ =>
      exists rules,
        array rules = None
        /\ validator = generateValidator rules
        /\ parser = generateParser rules
  end.

(** ** The repository's tests, evaluated on the embedding *)

Definition parsed_as (template input : string) (name : string) (v : value)
  : Prop :=
  compile_parse template input
  = Ret (Some {| path := input; params := Some {[ name := v ]} |}).

Definition rejected (template input : string) : Prop :=
  compile_parse template input = Ret None.

Definition built_as (template : string) (name : string) (v : value)
    (expected : string) : Prop :=
  compile_build template (Some {[ name := v ]}) = Ret expected.

Definition param_of (r : ParseResult) (name : string) : option value :=
  params r ≫= (fun record => record !! name).

(** ** Notions used by the further properties *)

(** A value of the type a rule declares: a non-empty string, a number other
    than NaN, or a member of the union. *)
Definition typed_value (t : rule_type) (v : value) : Prop :=
  match t, v with
  | TString, VString s => truthy_string s = true
  | TNumber, VNumber n => isNaN n = false
  | TUnion values, VString s => s ∈ values
  | _, _ => False
  end.

(** What a parameter with the given rules may hold after a successful
    [parse]: for an array parameter an array of typed values within the
    bounds, otherwise a typed value, or undefined when it is optional. *)
Definition typed_payload (rules : RawRules) (v : value) : Prop :=
  match array rules with
  | Some bounds =>
      exists items,
        v = VArray items
        /\ Forall (typed_value (type rules)) items
        /\ default 0 (minLength bounds) <= length items
        /\ forall m, maxLength bounds = Some m -> length items <= m
  | None =>
      (v = VUndefined /\ required rules = false)
      \/ typed_value (type rules) v
  end.

(** A null or a non-array object, at any depth of nested arrays. *)
Fixpoint contains_object (v : value) : bool :=
  match v with
  | VNull | VObject => true
  | VArray items =>
      (fix any (l : list value) : bool :=
         match l with
         | [] => false
         | item :: l' => contains_object item || any l'
         end) items
  | _ => false
  end.

(** The array bounds of the modifier '+'. *)
Definition one_or_more : array_rules :=
  {| minLength := Some 1; maxLength := None |}.

(** The tokens of the documented grammar, [:name], [:name<type>], each with
    an optional modifier. *)
Fixpoint all_chars (p : ascii -> bool) (s : string) : bool :=
  match s with
  | EmptyString => true
  | String c rest => p c && all_chars p rest
  end.

Definition word (s : string) : bool := truthy_string s && all_chars is_word s.

Definition generic_text (body : string) : string := String "<" (body +:+ ">").

Definition modificator_text (modificator : option ascii) : string :=
  match modificator with
  | Some c => String c EmptyString
  | None => EmptyString
  end.

Definition parameter_token (name : string) (generic : option string)
    (modificator : option ascii) : string :=
  String ":" (name +:+ from_option generic_text EmptyString generic
                   +:+ modificator_text modificator).

Definition modificator_ok (modificator : option ascii) : bool :=
  from_option is_modificator true modificator.

(** The name of the parameter a token compiles to, if it compiles to one. *)
Definition parameter_name (token : string) : option string :=
  m_name <$> regexp_match token.

(** A token that compiles to a literal or to a required parameter without
    array bounds: it has no modifier '*', '+' or '?'. *)
Definition demanding_token (token : string) : bool :=
  match regexp_match token with
  | Some m => negb (from_option is_modificator false (m_modificator m))
  | None => true
  end.

(** The path segment [build] writes for a token of a template of literals
    and plain parameters [:name], when the record binds the name to a
    non-empty string without '/'; [None] for any other token or value. *)
Definition segment_for (record : gmap string value) (token : string)
  : option string :=
  if mentions_parameter token then
    match token with
    | String ":" name =>
        if word name then
          match record !! name with
          | Some (VString v) =>
              if truthy_string v && negb (includes_char "/" v) && well_formed v
              then Some v else None
          | _ => None
          end
        else None
    | _ => None
    end
  else Some token.

Fixpoint path_segments (record : gmap string value) (tokens : list string)
  : option (list string) :=
  match tokens with
  | [] => Some []
  | token :: rest =>
      match segment_for record token, path_segments record rest with
      | Some s, Some ss => Some (s :: ss)
      | _, _ => None
      end
  end.

(** A string [build] can write as one path segment and read back. *)
Definition segment_value (v : string) : bool :=
  truthy_string v && negb (includes_char "/" v) && well_formed v.

(** The characters of a decimal numeral. *)
Definition decimal_char (c : ascii) : bool := is_digit c || Ascii.eqb c "-".

(** The digits 1 to 9. *)
Definition nonzero_digit (c : ascii) : bool := between "1" "9" c.

(** The characters of an encoded path: unreserved, reserved, or part of an
    escape. *)
Definition uri_char (c : ascii) : bool :=
  uri_reserved c || uri_unescaped c || Ascii.eqb c "%".

(** * Properties *)

#[local] Arguments String.append !_ _ / : simpl nomatch.

(** ** The repository's tests *)

Example tests_parse_single :
  compile_parse "/profile" "/profile"
    = Ret (Some {| path := "/profile"; params := None |})
  /\ parsed_as "/profile/:id" "/profile/12323" "id" (VString "12323")
  /\ parsed_as "/profile/:id<number>" "/profile/12323" "id" (VNumber (Fin 12323))
  /\ parsed_as "/profile/:id<hello|world>" "/profile/hello" "id" (VString "hello")
  /\ parsed_as "/profile/:id<hello|world>" "/profile/world" "id" (VString "world")
  /\ rejected "/profile/:id<hello|world>" "/profile/test".
Proof. repeat split; vm_compute; reflexivity. Qed.

Example tests_parse_string_modifiers :
  parsed_as "/profile/:id+" "/profile/1" "id" (VArray [VString "1"])
  /\ parsed_as "/profile/:id+" "/profile/1/2" "id"
       (VArray [VString "1"; VString "2"])
  /\ rejected "/profile/:id+" "/profile"
  /\ parsed_as "/profile/:id*" "/profile/1" "id" (VArray [VString "1"])
  /\ parsed_as "/profile/:id*" "/profile/1/2" "id"
       (VArray [VString "1"; VString "2"])
  /\ parsed_as "/profile/:id*" "/profile" "id" (VArray [])
  /\ parsed_as "/profile/:id?" "/profile/1" "id" (VString "1")
  /\ parsed_as "/profile/:id?" "/profile" "id" VUndefined.
Proof. repeat split; vm_compute; reflexivity. Qed.

Example tests_parse_number_modifiers :
  parsed_as "/profile/:id<number>+" "/profile/1" "id" (VArray [VNumber (Fin 1)])
  /\ parsed_as "/profile/:id<number>+" "/profile/1/2" "id"
       (VArray [VNumber (Fin 1); VNumber (Fin 2)])
  /\ rejected "/profile/:id<number>+" "/profile"
  /\ parsed_as "/profile/:id<number>*" "/profile/1" "id" (VArray [VNumber (Fin 1)])
  /\ parsed_as "/profile/:id<number>*" "/profile/1/2" "id"
       (VArray [VNumber (Fin 1); VNumber (Fin 2)])
  /\ parsed_as "/profile/:id<number>*" "/profile" "id" (VArray [])
  /\ parsed_as "/profile/:id<number>?" "/profile/1" "id" (VNumber (Fin 1))
  /\ parsed_as "/profile/:id<number>?" "/profile" "id" VUndefined.
Proof. repeat split; vm_compute; reflexivity. Qed.

Example tests_parse_union_modifiers :
  parsed_as "/profile/:id<hello|world>+" "/profile/hello/world" "id"
    (VArray [VString "hello"; VString "world"])
  /\ parsed_as "/profile/:id<hello|world>+" "/profile/world/hello" "id"
       (VArray [VString "world"; VString "hello"])
  /\ parsed_as "/profile/:id<hello|world>+" "/profile/world" "id"
       (VArray [VString "world"])
  /\ rejected "/profile/:id<hello|world>+" "/profile/test"
  /\ parsed_as "/profile/:id<hello|world>*" "/profile/hello/world" "id"
       (VArray [VString "hello"; VString "world"])
  /\ parsed_as "/profile/:id<hello|world>*" "/profile" "id" (VArray [])
  /\ rejected "/profile/:id<hello|world>*" "/profile/test"
  /\ parsed_as "/profile/:id<hello|world>?" "/profile/hello" "id" (VString "hello")
  /\ parsed_as "/profile/:id<hello|world>?" "/profile" "id" VUndefined.
Proof. repeat split; vm_compute; reflexivity. Qed.

Example tests_build :
  compile_build "/profile" None = Ret "/profile"
  /\ built_as "/profile/:id" "id" (VString "123") "/profile/123"
  /\ built_as "/profile/:id<number>" "id" (VNumber (Fin 123)) "/profile/123"
  /\ built_as "/profile/:id<hello|world>" "id" (VString "hello") "/profile/hello"
  /\ built_as "/profile/:id+" "id" (VArray [VString "123"; VString "321"])
       "/profile/123/321"
  /\ built_as "/profile/:id*" "id" (VArray [VString "123"]) "/profile/123"
  /\ built_as "/profile/:id*" "id" (VArray []) "/profile"
  /\ built_as "/profile/:id?" "id" (VString "world") "/profile/world"
  /\ built_as "/profile/:id?" "id" VUndefined "/profile"
  /\ built_as "/profile/:id<number>+" "id"
       (VArray [VNumber (Fin 123); VNumber (Fin 321)]) "/profile/123/321"
  /\ built_as "/profile/:id<number>*" "id" (VArray []) "/profile"
  /\ built_as "/profile/:id<number>?" "id" (VNumber (Fin 123)) "/profile/123"
  /\ built_as "/profile/:id<number>?" "id" VUndefined "/profile"
  /\ built_as "/profile/:id<hello|world>+" "id"
       (VArray [VString "hello"; VString "world"]) "/profile/hello/world"
  /\ built_as "/profile/:id<hello|world>*" "id" (VArray []) "/profile"
  /\ built_as "/profile/:id<hello|world>?" "id" VUndefined "/profile".
Proof. repeat split; vm_compute; reflexivity. Qed.

(** ** Splitting and joining *)

Section Splitting.
Variable sep : ascii.

Lemma split_not_nil s : split sep s <> [].
Proof. destruct s as [|c s]; simpl; [done|]. by repeat case_match. Qed.

Lemma split_app_free x r :
  includes_char sep x = false ->
  split sep (x +:+ String sep r) = x :: split sep r.
Proof.
  induction x as [|c x IH]; simpl; intros H.
  - by rewrite Ascii.eqb_refl.
  - apply orb_false_iff in H as [Hc Hx]. rewrite Hc, (IH Hx). done.
Qed.

Lemma split_free x : includes_char sep x = false -> split sep x = [x].
Proof.
  induction x as [|c x IH]; simpl; intros H; [done|].
  apply orb_false_iff in H as [Hc Hx]. by rewrite Hc, (IH Hx).
Qed.

Lemma split_app a b :
  split sep (a +:+ String sep b) = split sep a ++ split sep b.
Proof.
  induction a as [|c a IH]; simpl.
  - by rewrite Ascii.eqb_refl.
  - rewrite IH. destruct (Ascii.eqb c sep); [done|].
    destruct (split sep a) eqn:E; [by apply split_not_nil in E|done].
Qed.

Lemma split_pieces_free s : Forall (fun t => includes_char sep t = false) (split sep s).
Proof.
  induction s as [|c s IH]; simpl.
  - by constructor.
  - destruct (Ascii.eqb c sep) eqn:Hc; [by constructor|].
    destruct (split sep s) as [|p ps]; [by repeat constructor; simpl; rewrite Hc|].
    inversion_clear IH. constructor; [|done]. simpl. by rewrite Hc.
Qed.

Lemma segments_clean s : Forall (clean sep) (segments sep s).
Proof.
  unfold segments. pose proof (split_pieces_free s) as H.
  induction H as [|t ts Ht _ IH]; simpl; [constructor|].
  destruct (truthy_string t) eqn:E; [|done]. by constructor.
Qed.

Lemma segments_cons s : segments sep (String sep s) = segments sep s.
Proof. unfold segments. simpl. by rewrite Ascii.eqb_refl. Qed.

Lemma segments_app a b :
  segments sep (a +:+ String sep b) = segments sep a ++ segments sep b.
Proof. unfold segments. by rewrite split_app, List.filter_app. Qed.

Lemma segments_join ts :
  Forall (clean sep) ts -> segments sep (join (String sep EmptyString) ts) = ts.
Proof.
  induction 1 as [|t ts [Ht1 Ht2] Hts IH]; [done|].
  destruct ts as [|u us].
  - unfold segments. simpl. rewrite (split_free _ Ht2). simpl. by rewrite Ht1.
  - change (join _ (t :: u :: us))
      with (t +:+ String sep (join (String sep EmptyString) (u :: us))).
    rewrite segments_app, IH. unfold segments at 1.
    rewrite (split_free _ Ht2). simpl. by rewrite Ht1.
Qed.

(** Splitting is idempotent on what [build] assembles from split tokens. *)
Lemma segments_rebuild ts :
  Forall (clean sep) ts ->
  segments sep (String sep (join (String sep EmptyString) ts)) = ts.
Proof. intros H. by rewrite segments_cons, segments_join. Qed.
End Splitting.

(** ** The parameter grammar *)

Lemma match_here_name s m : match_here s = Some m -> truthy_string (m_name m) = true.
Proof.
  unfold match_here. destruct (span is_word s) as [[|c name] r1]; [done|].
  destruct (match_generic r1) as [[g r]|]; intros [= <-]; done.
Qed.

Lemma match_here_none s :
  match_here s = None <->
  match s with String d _ => is_word d | EmptyString => false end = false.
Proof.
  unfold match_here. destruct s as [|d s]; simpl; [done|].
  destruct (is_word d); [|done].
  destruct (span is_word s) as [a b]. destruct (match_generic b) as [[g r]|]; done.
Qed.

Lemma regexp_match_name block m :
  regexp_match block = Some m -> truthy_string (m_name m) = true.
Proof.
  induction block as [|c rest IH]; simpl; [done|].
  destruct (Ascii.eqb c ":"); [|done].
  destruct (match_here rest) eqn:E; [|done].
  intros [= <-]. by eapply match_here_name.
Qed.

Lemma regexp_match_none token :
  regexp_match token = None <-> mentions_parameter token = false.
Proof.
  induction token as [|c rest IH]; simpl; [done|].
  destruct (Ascii.eqb c ":"); simpl; [|done].
  destruct (match_here rest) eqn:E.
  - split; [done|]. intros [H _]%orb_false_iff.
    apply match_here_none in H. congruence.
  - apply match_here_none in E. rewrite E. done.
Qed.

(** ** The compiler never raises: it maps the tokens to blocks one by one *)

Lemma compile_loop_map path tokens blocks :
  Forall (fun t => truthy_string t = true) tokens ->
  compile_loop path tokens blocks = Ret (blocks ++ map compile_token tokens).
Proof.
  intros H. revert blocks.
  induction H as [|t ts Ht _ IH]; intros blocks; simpl.
  - by rewrite app_nil_r.
  - rewrite Ht. simpl. unfold compile_token at 1.
    destruct (regexp_match t) as [m|] eqn:E.
    + rewrite (regexp_match_name _ _ E). simpl. rewrite IH.
      by rewrite <- app_assoc.
    + rewrite IH. by rewrite <- app_assoc.
  Qed.

Lemma compile_blocks_map path :
  compile_blocks path = Ret (map compile_token (segments "/" path)).
Proof.
  unfold compile_blocks. rewrite compile_loop_map; [done|].
  eapply Forall_impl; [apply segments_clean|]. by intros t [? _].
Qed.

Lemma compile_parse_blocks template blocks input :
  compile_blocks template = Ret blocks ->
  compile_parse template input = parse_blocks blocks input.
Proof. unfold compile_parse, compile. by intros ->. Qed.

Lemma compile_build_blocks template blocks args :
  compile_blocks template = Ret blocks ->
  compile_build template args = build_blocks blocks args.
Proof. unfold compile_build, compile. by intros ->. Qed.

(** ** Percent encoding round trip *)

Lemma code_embedding c : ascii_of_N (code c) = c.
Proof. apply ascii_N_embedding. Qed.

Lemma read_hex2_escape c r :
  read_hex2 (String (hex_digit (code c / 16))
               (String (hex_digit (code c mod 16)) r)) = Some (code c, r).
Proof. destruct c as [[] [] [] [] [] [] [] []]; reflexivity. Qed.

Lemma high_escaped c :
  (code c <? 128)%N = false -> uri_reserved c || uri_unescaped c = false.
Proof. destruct c as [[] [] [] [] [] [] [] []]; vm_compute; congruence. Qed.

Lemma kept_not_percent c :
  uri_reserved c || uri_unescaped c = true -> Ascii.eqb c "%" = false.
Proof. destruct c as [[] [] [] [] [] [] [] []]; vm_compute; congruence. Qed.

Lemma valid_octets_shape b more :
  valid_octets (b :: more) = true ->
  leading_ones b = S (length more)
  /\ (length more = 1 \/ length more = 2 \/ length more = 3)
  /\ Forall (fun x => (x <? 128)%N = false) (b :: more).
Proof.
  unfold valid_octets, continuation, leading_ones.
  destruct more as [|c [|d [|e [|? ?]]]]; try done; intros H;
    repeat (apply andb_true_iff in H as [H ?]);
    repeat match goal with
           | H : _ || _ = true |- _ => apply orb_true_iff in H as [H|H]
           | H : _ && _ = true |- _ => apply andb_true_iff in H as [H ?]
           end;
    repeat match goal with
           | H : (_ <=? _)%N = true |- _ => apply N.leb_le in H
           | H : (_ =? _)%N = true |- _ => apply N.eqb_eq in H
           end;
    (split; [repeat case_match; try done;
             repeat match goal with
                    | H : (_ <? _)%N = true |- _ => apply N.ltb_lt in H
                    | H : (_ <? _)%N = false |- _ => apply N.ltb_ge in H
                    end; lia
            |split; [simpl; lia|]]);
    repeat constructor; apply N.ltb_ge; lia.
Qed.

Lemma decode_from_skip a x :
  decode_from (String.length a) (a +:+ x) = decode_from 0 x.
Proof. induction a as [|c a IH]; simpl; done. Qed.

Lemma escapes_length l : String.length (escapes l) = 3 * length l.
Proof. induction l as [|c l IH]; simpl; [done|]. rewrite IH. lia. Qed.

Lemma read_escapes_escapes l x :
  read_escapes (length l) (escapes l +:+ x) = Some (map code l).
Proof.
  induction l as [|c l IH]; [done|].
  change (escapes (c :: l) +:+ x)
    with (String "%" (String (hex_digit (code c / 16))
            (String (hex_digit (code c mod 16)) (escapes l +:+ x)))).
  cbn [read_escapes length]. rewrite read_hex2_escape. by rewrite IH.
Qed.

Lemma string_of_codes_map l :
  string_of_codes (map code l) = string_of_list_ascii l.
Proof. induction l as [|c l IH]; simpl; [done|]. by rewrite code_embedding, IH. Qed.

Lemma append_assoc (a b c : string) : (a +:+ b) +:+ c = a +:+ (b +:+ c).
Proof. induction a as [|x a IH]; simpl; [done|]. by rewrite IH. Qed.

Lemma append_nil_r (a : string) : a +:+ EmptyString = a.
Proof. induction a as [|x a IH]; simpl; [done|]. by rewrite IH. Qed.

(** Decoding one kept character, one escaped ASCII character, and one
    escaped multi-byte sequence. *)
Lemma decode_kept c x :
  uri_reserved c || uri_unescaped c = true ->
  decode_from 0 (String c x) = rest ← decode_from 0 x; Ret (String c rest).
Proof. intros H. simpl. by rewrite (kept_not_percent _ H). Qed.

Lemma decode_escape_ascii c x :
  uri_reserved c || uri_unescaped c = false ->
  (code c <? 128)%N = true ->
  decode_from 0 (escape c +:+ x) = rest ← decode_from 0 x; Ret (String c rest).
Proof.
  intros Hk Hc. simpl. unfold decode_escape. rewrite read_hex2_escape.
  unfold leading_ones. rewrite Hc, code_embedding.
  apply orb_false_iff in Hk as [-> _]. simpl. done.
Qed.

Lemma decode_escape_octets l x :
  valid_octets (map code l) = true ->
  decode_from 0 (escapes l +:+ x)
  = rest ← decode_from 0 x; Ret (string_of_list_ascii l +:+ rest).
Proof.
  destruct l as [|b more]; [done|]. intros H.
  pose proof (valid_octets_shape (code b) (map code more) H)
    as (Hlead & Hlen & _).
  rewrite length_map in Hlead, Hlen.
  change (escapes (b :: more) +:+ x)
    with (String "%" (String (hex_digit (code b / 16))
            (String (hex_digit (code b mod 16)) (escapes more +:+ x)))).
  cbn [decode_from Ascii.eqb Bool.eqb]. unfold decode_escape.
  rewrite read_hex2_escape, Hlead.
  assert (read_escapes (length more) (escapes more +:+ x) = Some (map code more))
    as Hr by apply read_escapes_escapes.
  assert (decode_from (3 * length more) (escapes more +:+ x) = decode_from 0 x)
    as Hs by (rewrite <- escapes_length; apply decode_from_skip).
  change (map code (b :: more)) with (code b :: map code more) in H.
  destruct Hlen as [E|[E|E]]; rewrite E in *; rewrite Hr, H;
    cbn [mbind outcome_bind]; cbn [decode_from Nat.add Nat.mul];
    simpl in Hs; rewrite Hs;
    change (code b :: map code more) with (map code (b :: more));
    rewrite string_of_codes_map; done.
Qed.

(** Induction over a well-formed string, one character at a time. *)
Lemma well_formed_chunks (P : string -> Prop) :
  P EmptyString ->
  (forall a s, (code a <? 128)%N = true ->
     well_formed s = true -> P s -> P (String a s)) ->
  (forall l s, valid_octets (map code l) = true ->
     well_formed s = true -> P s -> P (string_of_list_ascii l +:+ s)) ->
  forall s, well_formed s = true -> P s.
Proof.
  intros H0 H1 Hn s.
  assert (forall n s, String.length s <= n -> well_formed s = true -> P s)
    as G; [|by apply (G (String.length s))].
  clear s. induction n as [|n IH]; intros s Hlen Hwf.
  - destruct s; [done|simpl in Hlen; lia].
  - destruct s as [|a s1]; [done|]. cbn [well_formed] in Hwf.
    destruct (code a <? 128)%N eqn:Ea.
    { apply H1; [done..|]. apply IH; [simpl in Hlen; lia|done]. }
    destruct s1 as [|b s2]; [done|].
    destruct (valid_octets [code a; code b]) eqn:E2.
    { apply (Hn [a; b] s2); [done..|]. apply IH; [simpl in Hlen; lia|done]. }
    destruct s2 as [|c s3]; [done|].
    destruct (valid_octets [code a; code b; code c]) eqn:E3.
    { apply (Hn [a; b; c] s3); [done..|]. apply IH; [simpl in Hlen; lia|done]. }
    destruct s3 as [|d s4]; [done|].
    apply andb_true_iff in Hwf as [E4 Hwf].
    apply (Hn [a; b; c; d] s4); [done..|]. apply IH; [simpl in Hlen; lia|done].
Qed.

Lemma Encode_octets l s :
  Forall (fun x => (x <? 128)%N = false) (map code l) ->
  Encode (string_of_list_ascii l +:+ s) = escapes l +:+ Encode s.
Proof.
  induction l as [|c l IH]; [done|]. intros H. inversion_clear H as [|?? Hc Hl].
  cbn [string_of_list_ascii String.append Encode escapes].
  rewrite (high_escaped _ Hc), (IH Hl). by rewrite append_assoc.
Qed.

Lemma decode_encode s :
  well_formed s = true -> decodeURI (Encode s) = Ret s.
Proof.
  unfold decodeURI. revert s. apply well_formed_chunks.
  - done.
  - intros a s Ha _ IH. cbn [Encode].
    destruct (uri_reserved a || uri_unescaped a) eqn:Hk.
    + rewrite (decode_kept _ _ Hk), IH. done.
    + rewrite (decode_escape_ascii _ _ Hk Ha), IH. done.
  - intros l s Hl _ IH.
    destruct l as [|b more]; [done|].
    pose proof (valid_octets_shape (code b) (map code more) Hl) as (_ & _ & Hhigh).
    rewrite (Encode_octets (b :: more) s Hhigh).
    rewrite (decode_escape_octets _ _ Hl), IH. done.
Qed.

(** [encodeURI] returns on the strings without unpaired surrogate, and
    only on them. *)
Lemma encodeURI_well_formed s :
  well_formed s = true -> encodeURI s = Ret (Encode s).
Proof. intros H. unfold encodeURI. by rewrite H. Qed.

Lemma encodeURI_raises s :
  well_formed s = false -> encodeURI s = Throw URIError.
Proof. intros H. unfold encodeURI. by rewrite H. Qed.

Lemma encodeURI_returns s built :
  encodeURI s = Ret built -> well_formed s = true /\ built = Encode s.
Proof. unfold encodeURI. destruct (well_formed s); [|done]. by intros [= <-]. Qed.

(** An own property hides the inherited member of its name. *)
Lemma read_property_own record name v :
  record !! name = Some v -> read_property record name = v.
Proof. intros H. unfold read_property. by rewrite H. Qed.

(** ** Well-formedness is kept by appending, splitting and joining *)

Lemma valid_octets_length l1 l2 :
  valid_octets l1 = true -> valid_octets l2 = true ->
  hd 0%N l1 = hd 0%N l2 -> length l1 = length l2.
Proof.
  destruct l1 as [|a l1]; [done|]. destruct l2 as [|b l2]; [done|].
  intros (H1 & _ & _)%valid_octets_shape (H2 & _ & _)%valid_octets_shape.
  simpl. intros <-. congruence.
Qed.

Lemma well_formed_octets l x :
  valid_octets (map code l) = true ->
  well_formed (string_of_list_ascii l +:+ x) = well_formed x.
Proof.
  intros H. destruct l as [|a more]; [done|].
  pose proof (valid_octets_shape (code a) (map code more) H) as (_ & Hlen & Hhigh).
  inversion_clear Hhigh as [|?? Ha _]. rewrite length_map in Hlen.
  destruct more as [|b [|c [|d [|? ?]]]]; simpl in Hlen; try lia;
    cbn [string_of_list_ascii String.append well_formed]; rewrite Ha.
  - change (map code [a; b]) with [code a; code b] in H. by rewrite H.
  - change (map code [a; b; c]) with [code a; code b; code c] in H.
    destruct (valid_octets [code a; code b]) eqn:E2.
    { by pose proof (valid_octets_length _ _ E2 H eq_refl). }
    by rewrite H.
  - change (map code [a; b; c; d]) with [code a; code b; code c; code d] in H.
    destruct (valid_octets [code a; code b]) eqn:E2.
    { by pose proof (valid_octets_length _ _ E2 H eq_refl). }
    destruct (valid_octets [code a; code b; code c]) eqn:E3.
    { by pose proof (valid_octets_length _ _ E3 H eq_refl). }
    by rewrite H.
Qed.

Lemma well_formed_app a b :
  well_formed a = true -> well_formed b = true -> well_formed (a +:+ b) = true.
Proof.
  intros Ha Hb. revert a Ha. apply well_formed_chunks.
  - done.
  - intros c s Hc _ IH. cbn [String.append well_formed]. by rewrite Hc.
  - intros l s Hl _ IH. by rewrite append_assoc, well_formed_octets.
Qed.

Lemma split_cons_other sep c s :
  Ascii.eqb c sep = false ->
  exists p ps, split sep s = p :: ps /\ split sep (String c s) = String c p :: ps.
Proof.
  intros H. simpl. rewrite H.
  destruct (split sep s) as [|p ps] eqn:E; [by apply split_not_nil in E|eauto].
Qed.

Lemma split_octets sep l s :
  (code sep <? 128)%N = true ->
  Forall (fun x => (x <? 128)%N = false) (map code l) ->
  exists p ps, split sep s = p :: ps
    /\ split sep (string_of_list_ascii l +:+ s) = (string_of_list_ascii l +:+ p) :: ps.
Proof.
  intros Hsep. induction l as [|c l IH]; intros H.
  - destruct (split sep s) as [|p ps] eqn:E; [by apply split_not_nil in E|eauto].
  - inversion_clear H as [|?? Hc Hl]. destruct (IH Hl) as (p & ps & E1 & E2).
    exists p, ps. split; [done|].
    cbn [string_of_list_ascii String.append].
    assert (Ascii.eqb c sep = false) as Hne.
    { apply Ascii.eqb_neq. intros ->. congruence. }
    simpl. by rewrite Hne, E2.
Qed.

Lemma split_well_formed sep s :
  (code sep <? 128)%N = true -> well_formed s = true ->
  Forall (fun t => well_formed t = true) (split sep s).
Proof.
  intros Hsep. revert s. apply well_formed_chunks.
  - by repeat constructor.
  - intros a s Ha _ IH. simpl. destruct (Ascii.eqb a sep); [by constructor|].
    destruct (split sep s) as [|p ps]; [repeat constructor; simpl; by rewrite Ha|].
    inversion_clear IH. constructor; [|done]. simpl. by rewrite Ha.
  - intros l s Hl _ IH. destruct l as [|b more]; [done|].
    pose proof (valid_octets_shape (code b) (map code more) Hl) as (_ & _ & Hhigh).
    destruct (split_octets sep (b :: more) s Hsep Hhigh) as (p & ps & E1 & E2).
    rewrite E2. rewrite E1 in IH. inversion_clear IH.
    constructor; [|done]. by rewrite well_formed_octets.
Qed.

Lemma segments_well_formed sep s :
  (code sep <? 128)%N = true -> well_formed s = true ->
  Forall (fun t => well_formed t = true) (segments sep s).
Proof.
  intros Hsep Hs. unfold segments.
  pose proof (split_well_formed sep s Hsep Hs) as H.
  induction H as [|t ts Ht _ IH]; simpl; [constructor|].
  destruct (truthy_string t); [by constructor|done].
Qed.

Lemma join_well_formed sep ts :
  well_formed sep = true ->
  Forall (fun t => well_formed t = true) ts ->
  well_formed (join sep ts) = true.
Proof.
  intros Hsep. induction 1 as [|t ts Ht Hts IH]; [done|].
  destruct ts as [|u us]; [done|].
  change (join sep (t :: u :: us)) with (t +:+ sep +:+ join sep (u :: us)).
  by repeat apply well_formed_app.
Qed.

(** A string is without unpaired surrogate exactly when the pieces between
    its separators are. *)
Lemma valid_octets_high l :
  valid_octets l = true -> Forall (fun x => (x <? 128)%N = false) l.
Proof.
  destruct l as [|b more]; [done|]. by intros (_ & _ & H)%valid_octets_shape.
Qed.

Lemma well_formed_sep c a b :
  (code c <? 128)%N = true ->
  well_formed (a +:+ String c b) = well_formed a && well_formed b.
Proof.
  intros Hc.
  assert (forall l, code c ∈ l -> valid_octets l = false) as Hlow.
  { intros l Hin. destruct (valid_octets l) eqn:E; [|done].
    apply valid_octets_high in E. rewrite Forall_forall in E.
    specialize (E _ Hin). congruence. }
  assert (forall n a, String.length a <= n ->
            well_formed (a +:+ String c b) = well_formed a && well_formed b)
    as G; [|by apply (G (String.length a))].
  clear a. induction n as [|n IH]; intros a Hlen.
  { destruct a; [|simpl in Hlen; lia]. simpl. by rewrite Hc. }
  destruct a as [|a1 r1]; [simpl; by rewrite Hc|].
  cbn [String.append well_formed].
  destruct (code a1 <? 128)%N; [apply IH; simpl in Hlen; lia|].
  destruct r1 as [|a2 r2]; cbn [String.append].
  { rewrite Hlow by set_solver. destruct b as [|b1 b']; [done|].
    rewrite Hlow by set_solver. destruct b' as [|b2 b'']; [done|].
    by rewrite Hlow by set_solver. }
  destruct (valid_octets [code a1; code a2]);
    [apply IH; simpl in Hlen; lia|].
  destruct r2 as [|a3 r3]; cbn [String.append].
  { rewrite Hlow by set_solver. destruct b as [|b1 b']; [done|].
    by rewrite Hlow by set_solver. }
  destruct (valid_octets [code a1; code a2; code a3]);
    [apply IH; simpl in Hlen; lia|].
  destruct r3 as [|a4 r4]; cbn [String.append].
  { by rewrite Hlow by set_solver. }
  destruct (valid_octets [code a1; code a2; code a3; code a4]); [|done].
  cbn [andb]. apply IH. simpl in Hlen. lia.
Qed.

Lemma join_split sep s : join (String sep EmptyString) (split sep s) = s.
Proof.
  induction s as [|c s IH]; [done|]. cbn [split].
  destruct (split sep s) as [|p ps] eqn:E; [by apply split_not_nil in E|].
  destruct (Ascii.eqb_spec c sep) as [->|Hne].
  - change (join (String sep EmptyString) (EmptyString :: p :: ps))
      with (String sep (join (String sep EmptyString) (p :: ps))).
    by rewrite IH.
  - rewrite <- IH. by destruct ps.
Qed.

Lemma well_formed_join c ts :
  (code c <? 128)%N = true ->
  well_formed (join (String c EmptyString) ts) = forallb well_formed ts.
Proof.
  intros Hc. induction ts as [|t ts IH]; [done|].
  destruct ts as [|u us]; [simpl; by rewrite andb_true_r|].
  change (join (String c EmptyString) (t :: u :: us))
    with (t +:+ String c (join (String c EmptyString) (u :: us))).
  by rewrite (well_formed_sep _ _ _ Hc), IH.
Qed.

Lemma well_formed_tokens s :
  well_formed ("/" +:+ join "/" (segments "/" s)) = well_formed s.
Proof.
  change (well_formed (join "/" (segments "/" s)) = well_formed s).
  rewrite <- (join_split "/" s) at 2. rewrite !well_formed_join by done.
  unfold segments. induction (split "/" s) as [|t ts IH]; [done|].
  cbn [List.filter forallb]. destruct t; [done|]. cbn [truthy_string forallb].
  by rewrite IH.
Qed.

(** ** Literal blocks *)

Lemma compile_token_part token :
  is_part (compile_token token) = true -> compile_token token = PartBlock token.
Proof. unfold compile_token. by destruct (regexp_match token). Qed.

Lemma all_parts tokens :
  forallb is_part (map compile_token tokens) = true ->
  map compile_token tokens = map PartBlock tokens.
Proof.
  induction tokens as [|t ts IH]; simpl; [done|].
  intros [H1 H2]%andb_true_iff. by rewrite (compile_token_part _ H1), IH.
Qed.

Lemma build_loop_parts tokens args result :
  build_loop (map PartBlock tokens) args result = Ret (result ++ tokens).
Proof.
  revert result. induction tokens as [|t ts IH]; intros result; simpl.
  - by rewrite app_nil_r.
  - by rewrite IH, <- app_assoc.
Qed.

Lemma parse_loop_parts tokens before params :
  parse_loop (map PartBlock tokens) (before ++ tokens) (length before) params
  = Some params.
Proof.
  revert before. induction tokens as [|t ts IH]; intros before; simpl; [done|].
  rewrite list_lookup_middle by done. rewrite bool_decide_eq_true_2 by done.
  specialize (IH (before ++ [t])). rewrite <- app_assoc, length_app in IH.
  simpl in IH. by rewrite Nat.add_1_r in IH.
Qed.

Lemma filter_truthy_clean sep ts :
  Forall (clean sep) ts -> List.filter truthy_string ts = ts.
Proof.
  induction 1 as [|t ts [Ht _] _ IH]; simpl; [done|]. by rewrite Ht, IH.
Qed.

Lemma assembled_well_formed ts :
  Forall (fun t => well_formed t = true) ts ->
  well_formed (String "/" (join "/" ts)) = true.
Proof. intros H. simpl. by apply join_well_formed. Qed.

(** C8, as the code has it.  For every template with zero parameter
    descriptors that holds no unpaired surrogate, [build()] returns a path
    string, and [parse] of that string returns the record with that string
    as [path] and [params: null] (the null marker, not an empty mapping). *)
Theorem parameterless_round_trip (template : string) (blocks : list Block)
    (args : option (gmap string value)) :
  well_formed template = true ->
  compile_blocks template = Ret blocks ->
  forallb is_part blocks = true ->
  exists built,
    compile_build template args = Ret built
    /\ compile_parse template built
       = Ret (Some {| path := built; params := None |}).
Proof.
  intros Hwf Hc Hparts.
  rewrite compile_blocks_map in Hc. injection Hc as <-.
  pose proof (all_parts _ Hparts) as Hmap.
  pose proof (segments_clean "/" template) as Hclean.
  set (tokens := segments "/" template) in *.
  exists (Encode (String "/" (join "/" tokens))). split.
  - unfold compile_build, compile. rewrite compile_blocks_map.
    fold tokens. rewrite Hmap. cbn [mbind outcome_bind build].
    unfold build_blocks. rewrite build_loop_parts. cbn [mbind outcome_bind app].
    rewrite (filter_truthy_clean _ _ Hclean).
    apply encodeURI_well_formed, assembled_well_formed.
    by apply segments_well_formed.
  - unfold compile_parse, compile. rewrite compile_blocks_map.
    fold tokens. rewrite Hmap. cbn [mbind outcome_bind parse].
    unfold parse_blocks. rewrite decode_encode.
    2:{ apply assembled_well_formed. by apply segments_well_formed. }
    cbn [mbind outcome_bind]. rewrite (segments_rebuild _ _ Hclean).
    pose proof (parse_loop_parts tokens [] None) as Hloop.
    simpl in Hloop. by rewrite Hloop.
Qed.

Lemma parameterless_round_trip_witness :
  well_formed "/profile/settings" = true
  /\ compile_blocks "/profile/settings"
     = Ret [PartBlock "profile"; PartBlock "settings"]
  /\ exists built,
    compile_build "/profile/settings" None = Ret built
    /\ compile_parse "/profile/settings" built
       = Ret (Some {| path := built; params := None |}).
Proof.
  split; [reflexivity|]. split; [reflexivity|].
  apply (parameterless_round_trip "/profile/settings"
           [PartBlock "profile"; PartBlock "settings"] None);
    reflexivity.
Defined.

(** C8 as stated fails for a template whose literal holds an unpaired
    surrogate: the template has no parameter and [build()] raises the
    URIError of [encodeURI] instead of returning a path. *)
Lemma parameterless_round_trip_counterexample :
  compile_blocks ("/" +:+ lone_surrogate) = Ret [PartBlock lone_surrogate]
  /\ compile_build ("/" +:+ lone_surrogate) None = Throw URIError
  /\ ~ (exists built, compile_build ("/" +:+ lone_surrogate) None = Ret built).
Proof.
  assert (compile_build ("/" +:+ lone_surrogate) None = Throw URIError) as E
    by (vm_compute; reflexivity).
  split; [vm_compute; reflexivity|]. split; [exact E|].
  intros [built H]. congruence.
Qed.

(** ** A literal followed by [:id] *)

Lemma plain_validator v rest :
  truthy_string v = true -> generateValidator plain_rules (v :: rest) = true.
Proof.
  intros H. unfold generateValidator, baseValidator. simpl. by rewrite H.
Qed.

Lemma plain_parser v rest :
  truthy_string v = true -> generateParser plain_rules (v :: rest) = VString v.
Proof.
  intros H. unfold generateParser, baseParser. simpl. by rewrite H.
Qed.

(** C1, as the code has it.  For every template made of one literal segment
    followed by the required string parameter [:id], and for every non-empty
    string [v] without a '/', template and [v] holding no unpaired
    surrogate, [build({id: v})] returns a path whose [parse] succeeds with
    [params] equal to [{id: v}]. *)
Theorem single_parameter_round_trip (template lit v : string)
    (record : gmap string value) :
  well_formed template = true ->
  segments "/" template = [lit; ":id"] ->
  mentions_parameter lit = false ->
  record !! "id" = Some (VString v) ->
  well_formed v = true ->
  truthy_string v = true ->
  includes_char "/" v = false ->
  exists built,
    compile_build template (Some record) = Ret built
    /\ compile_parse template built
       = Ret (Some {| path := built;
                      params := Some {[ "id" := VString v ]} |}).
Proof.
  intros Hwf Htokens Hlit Hid Hv Hne Hslash.
  pose proof (segments_clean "/" template) as Hclean.
  pose proof (segments_well_formed "/" template eq_refl Hwf) as Hwfs.
  rewrite Htokens in Hclean, Hwfs.
  apply Forall_cons in Hclean as [Hlc _]. apply Forall_cons in Hwfs as [Hlw _].
  assert (compile_blocks template
          = Ret [PartBlock lit; parameter_block "id" plain_rules]) as Hc.
  { rewrite compile_blocks_map, Htokens. cbn [map]. unfold compile_token at 1.
    apply regexp_match_none in Hlit. by rewrite Hlit. }
  assert (Forall (clean "/") [lit; v]) as Hcl.
  { constructor; [exact Hlc|]. constructor; [by split|constructor]. }
  exists (Encode (String "/" (join "/" [lit; v]))). split.
  - rewrite (compile_build_blocks _ _ _ Hc). unfold build_blocks.
    cbn [build_loop parameter_block get_param mbind outcome_bind required
         plain_rules app].
    rewrite (read_property_own _ _ _ Hid). cbn [truthy].
    rewrite Hne. cbn [negb andb stringifyParam truthy].
    rewrite Hne. cbn [negb toString mbind outcome_bind build_loop app].
    rewrite (filter_truthy_clean _ _ Hcl).
    apply encodeURI_well_formed, assembled_well_formed.
    by repeat constructor.
  - rewrite (compile_parse_blocks _ _ _ Hc). unfold parse_blocks.
    rewrite decode_encode.
    2:{ apply assembled_well_formed. by repeat constructor. }
    cbn [mbind outcome_bind]. rewrite (segments_rebuild _ _ Hcl).
    cbn [parse_loop parameter_block lookup list_lookup createControls drop].
    rewrite bool_decide_eq_true_2 by done.
    rewrite (plain_validator _ _ Hne), (plain_parser _ _ Hne).
    cbn [negb from_option id]. unfold set_property. simpl.
    by rewrite insert_empty.
Qed.

Lemma single_parameter_round_trip_witness :
  well_formed "/profile/:id" = true
  /\ segments "/" "/profile/:id" = ["profile"; ":id"]
  /\ mentions_parameter "profile" = false
  /\ ({[ "id" := VString "12 3" ]} : gmap string value) !! "id"
     = Some (VString "12 3")
  /\ well_formed "12 3" = true
  /\ truthy_string "12 3" = true
  /\ includes_char "/" "12 3" = false
  /\ exists built,
      compile_build "/profile/:id" (Some {[ "id" := VString "12 3" ]}) = Ret built
      /\ compile_parse "/profile/:id" built
         = Ret (Some {| path := built;
                        params := Some {[ "id" := VString "12 3" ]} |}).
Proof.
  repeat (split; [reflexivity|]).
  apply (single_parameter_round_trip "/profile/:id" "profile" "12 3"
           {[ "id" := VString "12 3" ]});
    reflexivity.
Defined.

(** C1 as stated fails for a printable value with a '/' in it: the built
    path has one segment more, and [parse] returns the part before the '/'. *)
Lemma single_parameter_round_trip_counterexample :
  compile_build "/profile/:id" (Some {[ "id" := VString "a/b" ]})
    = Ret "/profile/a/b"
  /\ compile_parse "/profile/:id" "/profile/a/b"
     = Ret (Some {| path := "/profile/a/b";
                    params := Some {[ "id" := VString "a" ]} |})
  /\ ~ (exists built r,
         compile_build "/profile/:id" (Some {[ "id" := VString "a/b" ]})
           = Ret built
         /\ compile_parse "/profile/:id" built = Ret (Some r)
         /\ param_of r "id" = Some (VString "a/b")).
Proof.
  split; [vm_compute; reflexivity|]. split; [vm_compute; reflexivity|].
  intros (built & r & Hb & Hp & Hid).
  assert (built = "/profile/a/b") as -> by (vm_compute in Hb; congruence).
  assert (r = {| path := "/profile/a/b";
                 params := Some {[ "id" := VString "a" ]} |}) as ->.
  { assert (compile_parse "/profile/:id" "/profile/a/b"
            = Ret (Some {| path := "/profile/a/b";
                           params := Some {[ "id" := VString "a" ]} |})) as E
      by (vm_compute; reflexivity).
    congruence. }
  vm_compute in Hid. discriminate.
Qed.

(** ** The modifiers on concrete templates *)

(** C6.  On the template [/profile/:id+], [parse('/profile')] returns null,
    and [parse('/profile/1/2')] returns [params] with [id] equal to the
    array ['1', '2'], in input order. *)
Theorem one_or_more_modifier :
  compile_parse "/profile/:id+" "/profile" = Ret None
  /\ compile_parse "/profile/:id+" "/profile/1/2"
     = Ret (Some {| path := "/profile/1/2";
                    params := Some {[ "id" := VArray [VString "1"; VString "2"] ]} |}).
Proof. split; vm_compute; reflexivity. Qed.

(** C7.  On the template [/profile/:id*], [parse('/profile')] succeeds and
    returns [params] equal to [{id: []}]: an empty array, neither null nor
    an absent key. *)
Theorem zero_or_more_modifier :
  compile_parse "/profile/:id*" "/profile"
  = Ret (Some {| path := "/profile"; params := Some {[ "id" := VArray [] ]} |}).
Proof. vm_compute. reflexivity. Qed.

(** ** Tokens without a name *)

(** C3 (not met by the code).  No template makes [compile] raise: the
    grammar only matches a ':' that is followed by a word character, so the
    captured name is never empty and the [throw] for a missing name is never
    reached; a token such as ':' or ':<number>' is compiled to a literal. *)
Theorem unnamed_parameter_is_literal :
  compile_blocks "/profile/:" = Ret [PartBlock "profile"; PartBlock ":"]
  /\ compile_blocks "/profile/:<number>*"
     = Ret [PartBlock "profile"; PartBlock ":<number>*"]
  /\ forall template, exists c, compile template = Ret c.
Proof.
  split; [reflexivity|]. split; [reflexivity|].
  intros template. unfold compile. rewrite compile_blocks_map. by eexists.
Qed.

(** ** The loop of [parse] *)

Lemma parse_loop_app before after parsed i params :
  parse_loop (before ++ after) parsed i params
  = match parse_loop before parsed i params with
    | None => None
    | Some params' => parse_loop after parsed (i + length before) params'
    end.
Proof.
  revert i params. induction before as [|b bs IH]; intros i params.
  - simpl. by rewrite Nat.add_0_r.
  - cbn [app parse_loop length]. replace (i + S (length bs)) with (S i + length bs) by lia.
    destruct b as [name validator parser req|value].
    + destruct (negb _); [done|]. destruct (parser _); try done; apply IH.
    + destruct (bool_decide _); [apply IH|done].
Qed.

(** A successful parse has met every literal block at its own position. *)
Lemma parse_loop_literal blocks parsed i params result k value :
  parse_loop blocks parsed i params = Some result ->
  blocks !! k = Some (PartBlock value) ->
  parsed !! (i + k) = Some value.
Proof.
  revert i params k. induction blocks as [|b bs IH]; intros i params k; [done|].
  cbn [parse_loop]. destruct k as [|k].
  - intros H [= ->]. rewrite Nat.add_0_r.
    destruct (bool_decide _) eqn:E; [|done]. by apply bool_decide_eq_true in E.
  - intros H Hk. replace (i + S k) with (S i + k) by lia. simpl in Hk.
    destruct b as [name validator parser req|v].
    + destruct (negb _); [done|].
      destruct (parser _); try done; by eapply IH.
    + destruct (bool_decide _); [by eapply IH|done].
Qed.

Lemma no_colon_no_parameter token :
  includes_char ":" token = false -> mentions_parameter token = false.
Proof.
  induction token as [|c rest IH]; simpl; [done|].
  intros [-> H]%orb_false_iff. by rewrite (IH H).
Qed.

(** C5, as the code has it.  Every template token in which no ':' is followed
    by a word character is compiled to a literal block holding the raw token,
    and [parse] requires the raw path segment at that position to equal the
    token verbatim. *)
Theorem literal_token (template : string) (blocks : list Block) (k : nat)
    (token : string) :
  compile_blocks template = Ret blocks ->
  segments "/" template !! k = Some token ->
  mentions_parameter token = false ->
  blocks !! k = Some (PartBlock token)
  /\ forall input r,
       parse_blocks blocks input = Ret (Some r) ->
       exists decoded,
         decodeURI input = Ret decoded
         /\ segments "/" decoded !! k = Some token.
Proof.
  intros Hc Hk Htoken. rewrite compile_blocks_map in Hc. injection Hc as <-.
  assert (map compile_token (segments "/" template) !! k
          = Some (PartBlock token)) as Hblock.
  { rewrite list_lookup_fmap, Hk. simpl. unfold compile_token.
    apply regexp_match_none in Htoken. by rewrite Htoken. }
  split; [done|].
  intros input r. unfold parse_blocks.
  destruct (decodeURI input) as [decoded|e]; [|done].
  cbn [mbind outcome_bind]. intros H. exists decoded. split; [done|].
  destruct (parse_loop _ _ 0 None) as [result|] eqn:E; [|done].
  by apply (parse_loop_literal _ _ _ _ _ _ _ E Hblock).
Qed.

Lemma literal_token_witness :
  compile_blocks "/user/profile:/:id"
    = Ret [PartBlock "user"; PartBlock "profile:";
           parameter_block "id" plain_rules]
  /\ segments "/" "/user/profile:/:id" !! 1 = Some "profile:"
  /\ mentions_parameter "profile:" = false
  /\ [PartBlock "user"; PartBlock "profile:";
      parameter_block "id" plain_rules] !! 1
     = Some (PartBlock "profile:")
  /\ forall input r,
       parse_blocks [PartBlock "user"; PartBlock "profile:";
                     parameter_block "id" plain_rules] input = Ret (Some r) ->
       exists decoded,
         decodeURI input = Ret decoded
         /\ segments "/" decoded !! 1 = Some "profile:".
Proof.
  repeat (split; [reflexivity|]).
  apply (literal_token "/user/profile:/:id"
           [PartBlock "user"; PartBlock "profile:";
            parameter_block "id" plain_rules] 1 "profile:");
    reflexivity.
Defined.

(** C5 as stated fails for the token [foo:bar]: it does not begin with ':',
    yet it is compiled to the parameter [bar], and any segment matches it. *)
Lemma literal_token_counterexample :
  compile_blocks "/foo:bar" = Ret [parameter_block "bar" plain_rules]
  /\ compile_blocks "/foo:bar" <> Ret [PartBlock "foo:bar"]
  /\ compile_parse "/foo:bar" "/anything"
     = Ret (Some {| path := "/anything";
                    params := Some {[ "bar" := VString "anything" ]} |}).
Proof.
  split; [reflexivity|]. split; [|vm_compute; reflexivity].
  intros H. vm_compute in H. discriminate.
Qed.

(** ** Number-typed parameters *)

Lemma number_validator s rest :
  truthy_string s = true ->
  generateValidator number_rules (s :: rest) = negb (isNaN (parseInt s)).
Proof.
  intros H. unfold generateValidator, baseValidator. simpl. by rewrite H.
Qed.

Lemma number_parser s rest :
  truthy_string s = true ->
  generateParser number_rules (s :: rest) = VNumber (parseInt s).
Proof.
  intros H. unfold generateParser, baseParser. simpl. by rewrite H.
Qed.

(** C9.  On the template [/profile/:id<number>], [parse('/profile/123')]
    returns [params.id] equal to the number 123; the validator accepts
    exactly the segments whose [parseInt] is not NaN, and the parsed value is
    what [parseInt] gives, so the segment [12abc] is accepted and gives 12. *)
Theorem number_parameter (input decoded s : string) (rest : list string) :
  decodeURI input = Ret decoded ->
  segments "/" decoded = "profile" :: s :: rest ->
  compile_parse "/profile/:id<number>" "/profile/123"
    = Ret (Some {| path := "/profile/123";
                   params := Some {[ "id" := VNumber (Fin 123) ]} |})
  /\ generateValidator number_rules (createControls (segments "/" decoded) 1)
     = negb (isNaN (parseInt s))
  /\ compile_parse "/profile/:id<number>" input
     = Ret (if isNaN (parseInt s) then None
            else Some {| path := input;
                         params := Some {[ "id" := VNumber (parseInt s) ]} |})
  /\ compile_parse "/profile/:id<number>" "/profile/12abc"
     = Ret (Some {| path := "/profile/12abc";
                    params := Some {[ "id" := VNumber (Fin 12) ]} |}).
Proof.
  intros Hd Hs.
  assert (truthy_string s = true) as Hne.
  { pose proof (segments_clean "/" decoded) as H. rewrite Hs in H.
    apply Forall_cons in H as [_ H]. apply Forall_cons in H as [[H _] _]. done. }
  split; [vm_compute; reflexivity|]. split.
  { rewrite Hs. by apply number_validator. }
  split; [|vm_compute; reflexivity].
  assert (compile_blocks "/profile/:id<number>"
          = Ret [PartBlock "profile"; parameter_block "id" number_rules]) as Hc
    by reflexivity.
  rewrite (compile_parse_blocks _ _ _ Hc). unfold parse_blocks.
  rewrite Hd. cbn [mbind outcome_bind]. rewrite Hs.
  cbn [parse_loop parameter_block lookup list_lookup createControls drop].
  rewrite bool_decide_eq_true_2 by done.
  rewrite (number_validator _ _ Hne), (number_parser _ _ Hne).
  destruct (parseInt s) as [|z| |]; [done|..];
    cbn [isNaN negb from_option id]; unfold set_property; simpl;
    by rewrite insert_empty.
Qed.

Lemma number_parameter_witness :
  decodeURI "/profile/%2012abc/x" = Ret "/profile/ 12abc/x"
  /\ segments "/" "/profile/ 12abc/x" = "profile" :: " 12abc" :: ["x"]
  /\ compile_parse "/profile/:id<number>" "/profile/%2012abc/x"
     = Ret (Some {| path := "/profile/%2012abc/x";
                    params := Some {[ "id" := VNumber (Fin 12) ]} |}).
Proof.
  split; [reflexivity|]. split; [reflexivity|].
  apply (number_parameter "/profile/%2012abc/x" "/profile/ 12abc/x"
           " 12abc" ["x"]); reflexivity.
Defined.

(** ** Array parameters *)

Section ArrayLoops.
Variable rules : RawRules.

Lemma validate_items_unbounded controls n :
  Forall (fun s => truthy_string s = true) controls ->
  validate_items rules None controls n
  = if forallb (fun s => baseValidator rules (Some s)) controls
    then Some (n + length controls) else None.
Proof.
  intros H. revert n. induction H as [|s ss Hs _ IH]; intros n; simpl.
  - by rewrite Nat.add_0_r.
  - rewrite Hs. simpl. destruct (baseValidator rules (Some s)); simpl; [|done].
    rewrite IH. by replace (S n + length ss) with (n + S (length ss)) by lia.
Qed.

Lemma parse_items_unbounded controls result :
  Forall (fun s => truthy_string s = true) controls ->
  parse_items rules None controls result
  = result ++ map (fun s => baseParser rules (Some s)) controls.
Proof.
  intros H. revert result. induction H as [|s ss Hs _ IH]; intros result; simpl.
  - by rewrite app_nil_r.
  - rewrite Hs. simpl. by rewrite IH, <- app_assoc.
Qed.

Hypothesis star : array rules = Some zero_or_more.

Lemma star_validator controls :
  Forall (fun s => truthy_string s = true) controls ->
  generateValidator rules controls
  = forallb (fun s => baseValidator rules (Some s)) controls.
Proof.
  intros H. unfold generateValidator. rewrite star. simpl.
  rewrite (validate_items_unbounded _ _ H).
  by destruct (forallb _ controls).
Qed.

Lemma star_parser controls :
  Forall (fun s => truthy_string s = true) controls ->
  generateParser rules controls
  = VArray (map (fun s => baseParser rules (Some s)) controls).
Proof.
  intros H. unfold generateParser. rewrite star. simpl.
  by rewrite (parse_items_unbounded _ _ H).
Qed.
End ArrayLoops.

Lemma derive_rules_star m :
  m_modificator m = Some "*"%char -> array (derive_rules m) = Some zero_or_more.
Proof. unfold derive_rules, modificator_rules. by intros ->. Qed.

Lemma segments_truthy sep s :
  Forall (fun t => truthy_string t = true) (segments sep s).
Proof. eapply Forall_impl; [apply segments_clean|]. by intros t [? _]. Qed.

(** C2, as the code has it.  For a template whose final descriptor is a '*'
    parameter, [parse] validates every raw segment from that descriptor's
    position to the end of the input against the base rule: when one of them
    fails, the whole parse returns null; otherwise the parse succeeds (given
    that the descriptors before it did) and the parameter is the array of all
    those segments, parsed, in input order. *)
Theorem zero_or_more_consumes_all (template input decoded token : string)
    (tokens : list string) (m : matches) :
  segments "/" template = tokens ++ [token] ->
  regexp_match token = Some m ->
  m_modificator m = Some "*"%char ->
  decodeURI input = Ret decoded ->
  let rules := derive_rules m in
  let parsed := segments "/" decoded in
  let items := drop (length tokens) parsed in
  compile_parse template input
  = Ret (match parse_loop (map compile_token tokens) parsed 0 None with
         | None => None
         | Some before =>
             if forallb (fun s => baseValidator rules (Some s)) items
             then Some {| path := input;
                          params :=
                            Some (set_property (m_name m)
                                    (VArray (map (fun s => baseParser rules (Some s))
                                                 items))
                                    (default ∅ before)) |}
             else None
         end).
Proof.
  intros Ht Hm Hstar Hd rules parsed items.
  rewrite (compile_parse_blocks _ _ _ (compile_blocks_map template)).
  unfold parse_blocks. rewrite Hd. cbn [mbind outcome_bind]. fold parsed.
  rewrite Ht, map_app, parse_loop_app.
  destruct (parse_loop (map compile_token tokens) parsed 0 None)
    as [before|]; [|done].
  cbn [map]. unfold compile_token at 1. rewrite Hm. fold rules.
  rewrite length_map. cbn [Nat.add parse_loop parameter_block createControls].
  fold items.
  assert (Forall (fun s => truthy_string s = true) items) as Hitems.
  { apply Forall_drop, segments_truthy. }
  pose proof (derive_rules_star _ Hstar) as Harr. fold rules in Harr.
  change (createControls parsed (length tokens)) with items.
  rewrite (star_validator rules Harr _ Hitems), (star_parser rules Harr _ Hitems).
  by destruct (forallb _ items).
Qed.

Lemma zero_or_more_consumes_all_witness :
  segments "/" "/profile/:id<number>*" = ["profile"] ++ [":id<number>*"]
  /\ regexp_match ":id<number>*"
     = Some {| m_name := "id"; m_generic := Some "<number>";
               m_modificator := Some "*"%char |}
  /\ decodeURI "/profile/1/2" = Ret "/profile/1/2"
  /\ compile_parse "/profile/:id<number>*" "/profile/1/2"
     = Ret (Some {| path := "/profile/1/2";
                    params := Some {[ "id" := VArray [VNumber (Fin 1);
                                                      VNumber (Fin 2)] ]} |}).
Proof.
  repeat (split; [reflexivity|]).
  apply (zero_or_more_consumes_all "/profile/:id<number>*" "/profile/1/2"
           "/profile/1/2" ":id<number>*" ["profile"]
           {| m_name := "id"; m_generic := Some "<number>";
              m_modificator := Some "*"%char |});
    reflexivity.
Defined.

(** C2 as stated fails on its own example: on [/profile/:id<number>*] the
    invalid segment [x] aborts the parse of [/profile/1/x]. *)
Lemma zero_or_more_consumes_all_counterexample :
  compile_parse "/profile/:id<number>*" "/profile/1/x" = Ret None
  /\ ~ (exists r, compile_parse "/profile/:id<number>*" "/profile/1/x"
                  = Ret (Some r)).
Proof.
  assert (compile_parse "/profile/:id<number>*" "/profile/1/x" = Ret None)
    as E by (vm_compute; reflexivity).
  split; [exact E|]. intros [r H]. congruence.
Qed.

(** ** The loop of [build] *)

Lemma build_loop_app before after args result :
  build_loop (before ++ after) args result
  = result' ← build_loop before args result; build_loop after args result'.
Proof.
  revert result. induction before as [|b bs IH]; intros result; [done|].
  cbn [app build_loop]. destruct b as [name validator parser req|value].
  - destruct (get_param args name) as [v|e]; [|done].
    cbn [mbind outcome_bind].
    destruct (negb (truthy v) && req); [done|].
    destruct (negb (truthy v) && negb req); [apply IH|].
    destruct (stringifyParam v) as [s|e]; [|done].
    cbn [mbind outcome_bind]. apply IH.
  - apply IH.
Qed.

(** ** The errors of [build] *)

Lemma value_nested_ind (P : value -> Prop) :
  P VUndefined -> P VNull -> (forall b, P (VBool b)) ->
  (forall n, P (VNumber n)) -> (forall s, P (VString s)) ->
  (forall items, Forall P items -> P (VArray items)) ->
  P VObject -> (forall source, P (VFunction source)) ->
  forall v, P v.
Proof.
  intros Hu Hn Hb Hnum Hs Ha Ho Hf. fix IH 1.
  intros [ | | b | n | s | items | | source ];
    [exact Hu | exact Hn | apply Hb | apply Hnum | apply Hs | | exact Ho
    | apply Hf].
  apply Ha. induction items as [|item items IHitems]; constructor;
    [apply IH | exact IHitems].
Qed.

Lemma stringifyParam_array items :
  stringifyParam (VArray items)
  = match items with
    | [] => Ret EmptyString
    | _ => parts ← stringify_items items; Ret (join "/" parts)
    end.
Proof.
  by destruct items.
Qed.

(** [stringifyParam] raises nothing but the error about object parameters. *)
Lemma stringifyParam_error v e :
  stringifyParam v = Throw e -> e = ObjectParameter.
Proof.
  revert e. induction v as [ | |b|n|s|items IH| |f] using value_nested_ind;
    intros e.
  - done.
  - by intros [= <-].
  - simpl. by destruct b.
  - simpl. by destruct (negb _).
  - simpl. by destruct (negb _).
  - rewrite stringifyParam_array. destruct items as [|item items]; [done|].
    assert (forall e, stringify_items (item :: items) = Throw e
                      -> e = ObjectParameter) as Hitems.
    { generalize dependent (item :: items). clear. intros l IH.
      induction IH as [|x l Hx _ IHl]; intros e; [done|].
      cbn [stringify_items]. destruct (stringifyParam x) as [sx|ex] eqn:Ex.
      - cbn [mbind outcome_bind].
        destruct (stringify_items l) as [sl|el]; [done|].
        cbn [mbind outcome_bind]. intros [= <-]. by apply IHl.
      - cbn [mbind outcome_bind]. intros [= <-]. by apply Hx. }
    destruct (stringify_items (item :: items)) as [parts|e'] eqn:E; [done|].
    cbn [mbind outcome_bind]. intros [= <-]. by apply Hitems.
  - by intros [= <-].
  - done.
Qed.

(** A name that is no own property reads falsy exactly when
    [Object.prototype] has no member of that name. *)
Lemma read_property_absent record name :
  record !! name = None ->
  truthy (read_property record name) = false <-> Object_prototype name = None.
Proof.
  intros H. unfold read_property. rewrite H. unfold Object_prototype.
  destruct (String.eqb name "constructor"); [done|].
  destruct (String.eqb name "__proto__"); [done|].
  by destruct (bool_decide _).
Qed.

(** The build error names a parameter only when that parameter is required
    and the value read for it is falsy. *)
Lemma build_loop_missing blocks record result name :
  build_loop blocks (Some record) result = Throw (MissingParameter name) ->
  truthy (read_property record name) = false
  /\ exists validator parser, ParameterBlock name validator parser true ∈ blocks.
Proof.
  revert result. induction blocks as [|b bs IH]; intros result; [done|].
  cbn [build_loop]. destruct b as [n validator parser req|value].
  - cbn [get_param mbind outcome_bind].
    destruct (truthy (read_property record n)) eqn:Ht; cbn [negb andb].
    + destruct (stringifyParam _) as [s|e] eqn:Es.
      * cbn [mbind outcome_bind]. intros (? & va & pa & ?)%IH.
        split; [done|]. exists va, pa. by right.
      * cbn [mbind outcome_bind]. intros [= ->].
        by apply stringifyParam_error in Es.
    + destruct req; cbn [negb].
      * intros [= <-]. split; [done|]. exists validator, parser. by left.
      * intros (? & va & pa & ?)%IH. split; [done|]. exists va, pa. by right.
  - intros (? & va & pa & ?)%IH. split; [done|]. exists va, pa. by right.
Qed.

(** C4, as the code has it.  For every compiled template and params record,
    a required parameter that [build] reaches (the blocks before it raised
    nothing) raises the build error naming it exactly when the value read
    for it from the record is falsy: undefined, null, false, 0, NaN or '';
    when the value is truthy, that error is not raised and the value is
    stringified into the path.  Whatever parameter a build error names, the
    value read for that parameter is falsy.  A parameter absent from the
    record reads as the member of [Object.prototype] of its name, so it is
    falsy exactly when there is no such member. *)
Theorem build_required_parameter (template name : string)
    (before rest : list Block) (validator : Validator) (parser : Parser)
    (record : gmap string value) (result : list string) :
  compile_blocks template
    = Ret (before ++ ParameterBlock name validator parser true :: rest) ->
  build_loop before (Some record) [] = Ret result ->
  let supplied := read_property record name in
  compile_build template (Some record)
  = (if truthy supplied then
       s ← stringifyParam supplied;
       result' ← build_loop rest (Some record) (result ++ [s]);
       encodeURI ("/" +:+ join "/" (List.filter truthy_string result'))
     else Throw (MissingParameter name))
  /\ (forall other,
       compile_build template (Some record) = Throw (MissingParameter other) ->
       truthy (read_property record other) = false)
  /\ (record !! name = None ->
      truthy supplied = false <-> Object_prototype name = None).
Proof.
  intros Hc Hb supplied. rewrite (compile_build_blocks _ _ _ Hc).
  split; [|split].
  - unfold build_blocks. rewrite build_loop_app, Hb.
    cbn [mbind outcome_bind build_loop get_param]. fold supplied.
    destruct (truthy supplied); cbn [negb andb]; [|done].
    by destruct (stringifyParam supplied).
  - intros other. unfold build_blocks.
    destruct (build_loop (before ++ _) (Some record) []) as [built|e] eqn:E;
      cbn [mbind outcome_bind].
    { unfold encodeURI. by destruct (well_formed _). }
    intros [= ->].
    by apply build_loop_missing in E as [? _].
  - apply read_property_absent.
Qed.

Lemma build_required_parameter_witness :
  compile_blocks "/profile/:id<number>"
    = Ret ([PartBlock "profile"]
           ++ ParameterBlock "id" (generateValidator number_rules)
                (generateParser number_rules) true :: [])
  /\ build_loop [PartBlock "profile"] (Some {[ "id" := VNumber (Fin 7) ]}) []
     = Ret ["profile"]
  /\ compile_build "/profile/:id<number>" (Some {[ "id" := VNumber (Fin 7) ]})
     = Ret "/profile/7".
Proof.
  split; [reflexivity|]. split; [reflexivity|].
  rewrite (proj1 (build_required_parameter "/profile/:id<number>" "id"
                    [PartBlock "profile"] [] (generateValidator number_rules)
                    (generateParser number_rules)
                    {[ "id" := VNumber (Fin 7) ]} ["profile"]
                    eq_refl eq_refl)).
  vm_compute. reflexivity.
Defined.

(** C4 as stated fails for a required parameter that is present with a
    falsy value: [build({id: 0})], [build({id: ''})] and [build({id: false})]
    raise the error of a missing parameter. *)
Lemma build_required_parameter_counterexample :
  ({[ "id" := VNumber (Fin 0) ]} : gmap string value) !! "id"
    = Some (VNumber (Fin 0))
  /\ compile_build "/profile/:id<number>" (Some {[ "id" := VNumber (Fin 0) ]})
     = Throw (MissingParameter "id")
  /\ compile_build "/profile/:id" (Some {[ "id" := VString "" ]})
     = Throw (MissingParameter "id")
  /\ compile_build "/profile/:id" (Some {[ "id" := VBool false ]})
     = Throw (MissingParameter "id").
Proof. repeat split; vm_compute; reflexivity. Qed.

(** ** Decoding a path with more text behind it *)

Lemma read_hex2_app r x b r' :
  read_hex2 r = Some (b, r') ->
  read_hex2 (r +:+ x) = Some (b, r' +:+ x)
  /\ String.length r = 2 + String.length r'
  /\ substring 0 2 (r +:+ x) = substring 0 2 r.
Proof.
  destruct r as [|c1 [|c2 r]]; try done. simpl.
  destruct (hex_value c1), (hex_value c2); try done.
  intros [= <- <-]. repeat split.
  by destruct (r +:+ x), r.
Qed.

Lemma read_escapes_app n r x more :
  read_escapes n r = Some more ->
  read_escapes n (r +:+ x) = Some more /\ 3 * n <= String.length r.
Proof.
  revert r more. induction n as [|n IH]; intros r more.
  - simpl. intros [= <-]. split; [done|lia].
  - destruct r as [|c r]; [done|]. cbn [read_escapes String.append].
    destruct (Ascii.ascii_dec c "%") as [->|Hc].
    2:{ destruct c as [[] [] [] [] [] [] [] []]; done. }
    destruct (read_hex2 r) as [[b r']|] eqn:E; [|done].
    destruct (read_hex2_app _ x _ _ E) as (-> & Hlen & _).
    destruct (read_escapes n r') as [more'|] eqn:E'; [|done].
    destruct (IH _ _ E') as [-> Hn]. intros [= <-]. split; [done|].
    simpl. lia.
Qed.

Lemma decode_escape_app r x text taken :
  decode_escape r = Ret (text, taken) ->
  decode_escape (r +:+ x) = Ret (text, taken) /\ taken <= String.length r.
Proof.
  unfold decode_escape.
  destruct (read_hex2 r) as [[b r']|] eqn:E; [|done].
  destruct (read_hex2_app _ x _ _ E) as (-> & Hlen & ->).
  destruct (leading_ones b) as [|[|[|[|[|n]]]]]; try done.
  - destruct (uri_reserved (ascii_of_N b)); intros [= <- <-]; split; (done || lia).
  - destruct (read_escapes 1 r') as [more|] eqn:E'; [|done].
    destruct (read_escapes_app _ _ x _ E') as [-> Hn].
    destruct (valid_octets (b :: more)); [|done].
    intros [= <- <-]. split; [done|lia].
  - destruct (read_escapes 2 r') as [more|] eqn:E'; [|done].
    destruct (read_escapes_app _ _ x _ E') as [-> Hn].
    destruct (valid_octets (b :: more)); [|done].
    intros [= <- <-]. split; [done|lia].
  - destruct (read_escapes 3 r') as [more|] eqn:E'; [|done].
    destruct (read_escapes_app _ _ x _ E') as [-> Hn].
    destruct (valid_octets (b :: more)); [|done].
    intros [= <- <-]. split; [done|lia].
Qed.

Lemma decode_from_app a x skip a' :
  skip <= String.length a ->
  decode_from skip a = Ret a' ->
  decode_from skip (a +:+ x) = rest ← decode_from 0 x; Ret (a' +:+ rest).
Proof.
  revert skip a'. induction a as [|c a IH]; intros skip a' Hskip.
  - simpl in Hskip. assert (skip = 0) as -> by lia. simpl. intros [= <-].
    by destruct (decode_from 0 x).
  - cbn [String.append decode_from]. destruct skip as [|skip].
    + destruct (Ascii.eqb c "%").
      * destruct (decode_escape a) as [[text taken]|e] eqn:E; [|done].
        destruct (decode_escape_app _ x _ _ E) as [-> Htaken].
        cbn [mbind outcome_bind].
        destruct (decode_from taken a) as [rest|e] eqn:E'; [|done].
        rewrite (IH _ _ Htaken E'). cbn [mbind outcome_bind]. intros [= <-].
        destruct (decode_from 0 x); [|done].
        cbn [mbind outcome_bind]. by rewrite append_assoc.
      * destruct (decode_from 0 a) as [rest|e] eqn:E'; [|done].
        rewrite (IH 0 _ ltac:(lia) E'). cbn [mbind outcome_bind]. intros [= <-].
        by destruct (decode_from 0 x).
    + intros H. apply IH; [simpl in Hskip; lia|done].
Qed.

Lemma decodeURI_append p extra d e :
  decodeURI p = Ret d -> decodeURI extra = Ret e ->
  decodeURI (p +:+ String "/" extra) = Ret (d +:+ String "/" e).
Proof.
  unfold decodeURI. intros Hp He.
  rewrite (decode_from_app _ _ 0 _ ltac:(lia) Hp). simpl. by rewrite He.
Qed.

(** ** Surplus trailing segments *)

Lemma modificator_rules_single c rules :
  Ascii.eqb c "*" || Ascii.eqb c "+" = false ->
  array (modificator_rules (Some c) rules) = array rules.
Proof.
  destruct c as [[] [] [] [] [] [] [] []]; intros H;
    first [reflexivity | vm_compute in H; discriminate].
Qed.

Lemma generic_rules_array generic rules :
  array (generic_rules generic rules) = array rules.
Proof.
  unfold generic_rules. destruct generic as [g|]; [|done].
  destruct (truthy_string g); [|done].
  simpl. by destruct (String.eqb _ _), (includes_char _ _).
Qed.

Lemma compile_token_single token :
  array_token token = false -> single_block (compile_token token).
Proof.
  unfold array_token, compile_token.
  destruct (regexp_match token) as [m|]; [|done].
  intros H. exists (derive_rules m). split; [|done].
  unfold derive_rules. destruct (m_modificator m) as [c|].
  - by rewrite (modificator_rules_single _ _ H), generic_rules_array.
  - simpl. by rewrite generic_rules_array.
Qed.

Lemma head_createControls parsed i : getInput (createControls parsed i) = parsed !! i.
Proof.
  unfold getInput, createControls. rewrite head_lookup, lookup_drop.
  by rewrite Nat.add_0_r.
Qed.

Lemma single_validator rules c c' :
  array rules = None -> getInput c = getInput c' ->
  generateValidator rules c = generateValidator rules c'.
Proof. unfold generateValidator. by intros -> ->. Qed.

Lemma single_parser rules c c' :
  array rules = None -> getInput c = getInput c' ->
  generateParser rules c = generateParser rules c'.
Proof. unfold generateParser. by intros -> ->. Qed.

Lemma parse_loop_surplus blocks parsed more i params :
  Forall single_block blocks ->
  i + length blocks <= length parsed ->
  parse_loop blocks (parsed ++ more) i params = parse_loop blocks parsed i params.
Proof.
  intros H. revert i params.
  induction H as [|b bs Hb _ IH]; intros i params Hlen; [done|].
  simpl in Hlen. cbn [parse_loop].
  assert ((parsed ++ more) !! i = parsed !! i) as Hi
    by (apply lookup_app_l; lia).
  destruct b as [name validator parser req|value].
  - destruct Hb as (rules & Harr & -> & ->).
    assert (getInput (createControls (parsed ++ more) i)
            = getInput (createControls parsed i)) as Hin
      by (by rewrite !head_createControls).
    rewrite (single_validator _ _ _ Harr Hin), (single_parser _ _ _ Harr Hin).
    destruct (negb _); [done|].
    destruct (generateParser rules (createControls parsed i));
      try done; apply IH; lia.
  - rewrite Hi. destruct (bool_decide _); [|done]. apply IH. lia.
Qed.

(** C10, as the code has it.  For every template without a '*' or '+'
    parameter at any position: if [parse(p)] succeeds and [p] has at least as
    many raw segments as the template has descriptors, then [parse] of [p]
    with further segments appended succeeds with the same [params]: the
    surplus segments are not looked at. *)
Theorem surplus_segments_ignored (template p decoded extra decoded' : string)
    (r : ParseResult) :
  forallb (fun token => negb (array_token token)) (segments "/" template) = true ->
  decodeURI p = Ret decoded ->
  length (segments "/" template) <= length (segments "/" decoded) ->
  decodeURI extra = Ret decoded' ->
  compile_parse template p = Ret (Some r) ->
  compile_parse template (p +:+ String "/" extra)
  = Ret (Some {| path := p +:+ String "/" extra; params := params r |}).
Proof.
  intros Hsingle Hd Hlen Hd' Hp.
  rewrite (compile_parse_blocks _ _ p (compile_blocks_map template)) in Hp.
  rewrite (compile_parse_blocks _ _ _ (compile_blocks_map template)).
  unfold parse_blocks in *. rewrite Hd in Hp.
  rewrite (decodeURI_append _ _ _ _ Hd Hd'). cbn [mbind outcome_bind] in *.
  rewrite segments_app, parse_loop_surplus.
  - destruct (parse_loop _ _ 0 None) as [result|]; [|done].
    by injection Hp as <-.
  - apply Forall_forall. intros b (token & -> & Hin)%list_elem_of_fmap.
    apply compile_token_single. apply negb_true_iff.
    rewrite forallb_forall in Hsingle. apply Hsingle.
    by apply list_elem_of_In.
  - by rewrite length_map.
Qed.

Lemma surplus_segments_ignored_witness :
  forallb (fun token => negb (array_token token))
    (segments "/" "/profile/:id?") = true
  /\ decodeURI "/profile/7" = Ret "/profile/7"
  /\ length (segments "/" "/profile/:id?") <= length (segments "/" "/profile/7")
  /\ decodeURI "extra/more" = Ret "extra/more"
  /\ compile_parse "/profile/:id?" "/profile/7"
     = Ret (Some {| path := "/profile/7";
                    params := Some {[ "id" := VString "7" ]} |})
  /\ compile_parse "/profile/:id?" "/profile/7/extra/more"
     = Ret (Some {| path := "/profile/7/extra/more";
                    params := Some {[ "id" := VString "7" ]} |}).
Proof.
  split; [reflexivity|]. split; [reflexivity|]. split; [simpl; lia|].
  split; [reflexivity|]. split; [vm_compute; reflexivity|].
  apply (surplus_segments_ignored "/profile/:id?" "/profile/7" "/profile/7"
           "extra/more" "extra/more"
           {| path := "/profile/7";
              params := Some {[ "id" := VString "7" ]} |});
    [reflexivity|reflexivity|simpl; lia|reflexivity|vm_compute; reflexivity].
Defined.

(** C10 as stated fails for a template that ends in an optional parameter,
    and for one with an array parameter before its end: in both, the
    appended segment changes [params]. *)
Lemma surplus_segments_ignored_counterexample :
  compile_parse "/profile/:id?" "/profile"
    = Ret (Some {| path := "/profile";
                   params := Some {[ "id" := VUndefined ]} |})
  /\ compile_parse "/profile/:id?" "/profile/extra"
     = Ret (Some {| path := "/profile/extra";
                    params := Some {[ "id" := VString "extra" ]} |})
  /\ ({[ "id" := VUndefined ]} : gmap string value)
     <> {[ "id" := VString "extra" ]}
  /\ compile_parse "/:id*/profile" "/a/profile"
     = Ret (Some {| path := "/a/profile";
                    params := Some {[ "id" := VArray [VString "a";
                                                      VString "profile"] ]} |})
  /\ compile_parse "/:id*/profile" "/a/profile/extra"
     = Ret (Some {| path := "/a/profile/extra";
                    params := Some {[ "id" := VArray [VString "a";
                                                      VString "profile";
                                                      VString "extra"] ]} |}).
Proof.
  repeat split; try (vm_compute; reflexivity).
  intros H. apply (f_equal (fun record => record !! "id")) in H.
  rewrite !lookup_singleton_eq in H. discriminate.
Qed.

(** ** Percent encoding and [parseInt] on examples *)

Example percent_encoding_examples :
  encodeURI "/a b%/x#y?z" = Ret "/a%20b%25/x#y?z"
  /\ encodeURI (String "195" (String "169" EmptyString)) = Ret "%C3%A9"
  /\ encodeURI ("/a" +:+ lone_surrogate) = Throw URIError
  /\ decodeURI "%C3%A9" = Ret (String "195" (String "169" EmptyString))
  /\ decodeURI "/a%20b%25/%2F%2f%41" = Ret "/a b%/%2F%2fA"
  /\ decodeURI "/profile/%" = Throw URIError
  /\ decodeURI "%C3" = Throw URIError
  /\ decodeURI "%C0%80" = Throw URIError
  /\ decodeURI "%ED%A0%80" = Throw URIError.
Proof. repeat split; vm_compute; reflexivity. Qed.

Example parseInt_examples :
  parseInt "123" = Fin 123
  /\ parseInt "12abc" = Fin 12
  /\ parseInt "  42" = Fin 42
  /\ parseInt "-7" = Fin (-7)
  /\ parseInt "+7" = Fin 7
  /\ parseInt "0x1f" = Fin 31
  /\ parseInt "0x" = NaN
  /\ parseInt "abc" = NaN
  /\ parseInt "-" = NaN
  /\ parseInt "" = NaN
  /\ parseInt "9007199254740993" = Fin 9007199254740992
  /\ parseInt ("1" +:+ zeros 309) = Infinity
  /\ parseInt ("-1" +:+ zeros 309) = NegInfinity.
Proof. repeat split; vm_compute; reflexivity. Qed.

Example toString_examples :
  toString (VNumber (Fin 123)) = "123"
  /\ toString (VNumber (Fin (-7))) = "-7"
  /\ toString (VNumber (Fin (2 ^ 53))) = "9007199254740992"
  /\ toString (VNumber (Fin (2 ^ 64))) = "18446744073709552000"
  /\ toString (VNumber (Fin (10 ^ 21))) = "1e+21"
  /\ toString (VNumber (Fin (2 ^ 70))) = "1.1805916207174113e+21"
  /\ toString (VNumber (Fin (- 10 ^ 23))) = "-1e+23"
  /\ toString (VNumber Infinity) = "Infinity"
  /\ toString (VNumber NaN) = "NaN"
  /\ toString (VBool true) = "true".
Proof. repeat split; vm_compute; reflexivity. Qed.

(** [parseInt] of a long run of digits is an infinity, which is not NaN: the
    validator of a number parameter accepts it. *)
Example parse_long_number :
  compile_parse "/n/:id<number>" ("/n/1" +:+ zeros 309)
  = Ret (Some {| path := "/n/1" +:+ zeros 309;
                 params := Some {[ "id" := VNumber Infinity ]} |}).
Proof. vm_compute. reflexivity. Qed.

(** A parameter absent from the record reads as the member of
    [Object.prototype] of its name when there is one. *)
Example build_reads_inherited_member :
  compile_build "/:constructor" (Some ∅)
  = Ret "/function%20Object()%20%7B%20%5Bnative%20code%5D%20%7D"
  /\ compile_build "/:__proto__" (Some ∅) = Throw ObjectParameter
  /\ compile_build "/:id" (Some ∅) = Throw (MissingParameter "id")
  /\ compile_build "/:constructor" (Some {[ "constructor" := VString "x" ]})
     = Ret "/x".
Proof. repeat split; vm_compute; reflexivity. Qed.

(** * Further properties of the code *)

(** ** What a validated parameter holds *)

Lemma base_typed rules current :
  truthy_string current = true ->
  baseValidator rules (Some current) = true ->
  typed_value (type rules) (baseParser rules (Some current)).
Proof.
  intros Ht. unfold baseValidator, baseParser. simpl. rewrite Ht.
  rewrite andb_false_r. simpl.
  destruct (type rules) as [| |values]; simpl; [done| |].
  - by destruct (parseInt current).
  - by intros ?%bool_decide_eq_true.
Qed.

Lemma items_agree rules max controls n acc n' :
  validate_items rules max controls n = Some n' ->
  length acc = n ->
  Forall (typed_value (type rules)) acc ->
  length (parse_items rules max controls acc) = n'
  /\ Forall (typed_value (type rules)) (parse_items rules max controls acc).
Proof.
  revert n acc. induction controls as [|current rest IH]; intros n acc; simpl.
  - by intros [= <-] ? ?.
  - intros H Hlen Hacc. rewrite Hlen.
    destruct (truthy_string current && below_max n max) eqn:Hc.
    + apply andb_true_iff in Hc as [Ht _].
      destruct (baseValidator rules (Some current)) eqn:Hv; [|done].
      simpl in H. apply (IH _ _ H).
      * rewrite length_app. simpl. lia.
      * apply Forall_app. split; [done|].
        constructor; [by apply base_typed|constructor].
    + by injection H as <-.
Qed.

(** X1.  Whenever the validator of a parameter accepts the segments at the
    cursor, its parser returns a payload of the declared shape: never null
    and never NaN; for an array parameter an array within the bounds whose
    items all have the declared type, otherwise a value of the declared type,
    or undefined for an absent optional parameter.  The declared types are
    the non-empty strings, the numbers other than NaN (an infinity
    included, which [parseInt] gives for a long run of digits) and the
    members of the union. *)
Theorem validated_payload_typed (rules : RawRules) (controls : UrlControls) :
  generateValidator rules controls = true ->
  typed_payload rules (generateParser rules controls)
  /\ generateParser rules controls <> VNull.
Proof.
  unfold generateValidator, generateParser, typed_payload.
  destruct (array rules) as [bounds|].
  - destruct (validate_items _ _ controls 0) as [n|] eqn:E; [|done].
    destruct (items_agree _ _ _ _ [] _ E eq_refl (Forall_nil_2 _)) as [Hlen Hall].
    rewrite Hlen.
    destruct (above_max n _ || below_min n _) eqn:Hb; [done|]. intros _.
    apply orb_false_iff in Hb as [Hmax Hmin].
    split; [|done]. eexists. split; [done|]. split; [done|].
    rewrite Hlen. split.
    + unfold below_min in Hmin. apply Nat.ltb_ge in Hmin. done.
    + intros m Hm. unfold above_max in Hmax. rewrite Hm in Hmax.
      by apply Nat.ltb_ge in Hmax.
  - destruct (getInput controls) as [s|] eqn:Hin; simpl.
    + destruct (truthy_string s) eqn:Ht; simpl.
      * rewrite andb_false_r. intros Hv.
        pose proof (base_typed _ _ Ht Hv) as Hty. split; [by right|].
        intros Hn. rewrite Hn in Hty. by destruct (type rules).
      * rewrite andb_true_r. destruct (required rules); [done|].
        intros _. split; [by left|done].
    + rewrite andb_true_r. destruct (required rules); [done|].
      intros _. split; [by left|done].
Qed.

Lemma validated_payload_typed_witness :
  generateValidator (with_array number_rules one_or_more) ["1"; "22"] = true
  /\ typed_payload (with_array number_rules one_or_more)
       (generateParser (with_array number_rules one_or_more) ["1"; "22"])
  /\ generateParser (with_array number_rules one_or_more) ["1"; "22"] <> VNull.
Proof.
  split; [reflexivity|].
  apply (validated_payload_typed (with_array number_rules one_or_more)
           ["1"; "22"]).
  reflexivity.
Defined.

(** ** The null marker *)

Lemma is_part_compile_token token :
  is_part (compile_token token) = negb (mentions_parameter token).
Proof.
  unfold compile_token. destruct (regexp_match token) as [m|] eqn:E.
  - destruct (mentions_parameter token) eqn:Hm; [done|].
    apply regexp_match_none in Hm. congruence.
  - apply regexp_match_none in E. by rewrite E.
Qed.

Lemma all_parts_tokens tokens :
  forallb is_part (map compile_token tokens)
  = forallb (fun token => negb (mentions_parameter token)) tokens.
Proof.
  induction tokens as [|t ts IH]; simpl; [done|].
  by rewrite is_part_compile_token, IH.
Qed.

Lemma parse_loop_null blocks parsed i params result :
  parse_loop blocks parsed i params = Some result ->
  result = None <-> params = None /\ forallb is_part blocks = true.
Proof.
  revert i params. induction blocks as [|b bs IH]; intros i params.
  - simpl. intros [= <-]. split; [done|by intros [? _]].
  - cbn [parse_loop forallb]. destruct b as [name validator parser req|value].
    + destruct (negb _); [done|].
      destruct (parser _); try done; intros H; apply IH in H;
        (split; [intros [? _]%H; done|by intros [_ ?]]).
    + destruct (bool_decide _); [|done]. intros H. by apply IH in H.
Qed.

(** X2.  A successful [parse] returns [params: null] exactly when the
    template has no parameter: with at least one parameter, [params] is an
    object, also when every parameter in it is undefined. *)
Theorem params_null_iff_no_parameter (template input : string)
    (r : ParseResult) :
  compile_parse template input = Ret (Some r) ->
  params r = None
  <-> forallb (fun token => negb (mentions_parameter token))
        (segments "/" template) = true.
Proof.
  rewrite (compile_parse_blocks _ _ _ (compile_blocks_map template)).
  unfold parse_blocks. destruct (decodeURI input) as [decoded|]; [|done].
  cbn [mbind outcome_bind].
  destruct (parse_loop _ _ 0 None) as [result|] eqn:E; [|done].
  intros [= <-]. cbn [params].
  rewrite (parse_loop_null _ _ _ _ _ E), all_parts_tokens. by split; [intros [_ ?]|].
Qed.

Lemma params_null_iff_no_parameter_witness :
  compile_parse "/profile/:id?" "/profile"
    = Ret (Some {| path := "/profile";
                   params := Some {[ "id" := VUndefined ]} |})
  /\ (Some ({[ "id" := VUndefined ]} : gmap string value) = None
      <-> forallb (fun token => negb (mentions_parameter token))
            (segments "/" "/profile/:id?") = true).
Proof.
  split; [vm_compute; reflexivity|].
  apply (params_null_iff_no_parameter "/profile/:id?" "/profile"
           {| path := "/profile"; params := Some {[ "id" := VUndefined ]} |}).
  vm_compute. reflexivity.
Defined.

(** ** The exceptions of [parse] *)

Lemma decode_escape_error r e : decode_escape r = Throw e -> e = URIError.
Proof.
  unfold decode_escape. destruct (read_hex2 r) as [[b r']|]; [|by intros [= <-]].
  destruct (leading_ones b) as [|[|[|[|[|n]]]]]; try (by intros [= <-]).
  - by destruct (uri_reserved _).
  - destruct (read_escapes 1 r'); [|by intros [= <-]].
    destruct (valid_octets _); [done|by intros [= <-]].
  - destruct (read_escapes 2 r'); [|by intros [= <-]].
    destruct (valid_octets _); [done|by intros [= <-]].
  - destruct (read_escapes 3 r'); [|by intros [= <-]].
    destruct (valid_octets _); [done|by intros [= <-]].
Qed.

Lemma decode_from_error s skip e : decode_from skip s = Throw e -> e = URIError.
Proof.
  revert skip. induction s as [|c s IH]; intros skip; [done|].
  cbn [decode_from]. destruct skip as [|skip]; [|apply IH].
  destruct (Ascii.eqb c "%").
  - destruct (decode_escape s) as [[text taken]|e'] eqn:E.
    + cbn [mbind outcome_bind].
      destruct (decode_from taken s) as [rest|e'] eqn:E'; [done|].
      cbn [mbind outcome_bind]. intros [= <-]. by eapply IH.
    + cbn [mbind outcome_bind]. intros [= <-]. by eapply decode_escape_error.
  - destruct (decode_from 0 s) as [rest|e'] eqn:E'; [done|].
    cbn [mbind outcome_bind]. intros [= <-]. by eapply IH.
Qed.

(** X3.  Whatever the template, the only exception [parse] raises is the
    URIError of [decodeURI], and it raises it exactly when the input does not
    percent-decode: [parse] raises [e] if and only if [e] is the URIError and
    [decodeURI] of the input raises it.  Every other mismatch is the null
    result. *)
Theorem parse_raises_only_URIError (template input : string) (e : error) :
  compile_parse template input = Throw e
  <-> e = URIError /\ decodeURI input = Throw URIError.
Proof.
  rewrite (compile_parse_blocks _ _ _ (compile_blocks_map template)).
  unfold parse_blocks. destruct (decodeURI input) as [decoded|e'] eqn:E.
  - cbn [mbind outcome_bind]. split; [done|]. by intros [_ ?].
  - cbn [mbind outcome_bind]. pose proof (decode_from_error _ _ _ E) as ->.
    split; [by intros [= <-]|by intros [-> _]].
Qed.

Lemma parse_raises_only_URIError_witness :
  compile_parse "/profile/:id" "/profile/100%" = Throw URIError
  /\ URIError = URIError
  /\ decodeURI "/profile/100%" = Throw URIError.
Proof.
  split; [reflexivity|].
  apply (proj1 (parse_raises_only_URIError "/profile/:id" "/profile/100%"
                  URIError)).
  reflexivity.
Defined.

(** X4.  A malformed escape raises also where no descriptor looks: when
    the text appended behind a decodable path does not percent-decode,
    [parse] raises the URIError, whatever the template. *)
Theorem parse_raises_on_malformed_surplus (template p decoded extra : string) :
  decodeURI p = Ret decoded ->
  decodeURI extra = Throw URIError ->
  compile_parse template (p +:+ String "/" extra) = Throw URIError.
Proof.
  intros Hp He.
  rewrite (compile_parse_blocks _ _ _ (compile_blocks_map template)).
  unfold parse_blocks, decodeURI in *.
  rewrite (decode_from_app _ _ 0 _ ltac:(lia) Hp). simpl. by rewrite He.
Qed.

Lemma parse_raises_on_malformed_surplus_witness :
  decodeURI "/profile" = Ret "/profile"
  /\ decodeURI "x/%zz" = Throw URIError
  /\ compile_parse "/profile" "/profile/x/%zz" = Throw URIError.
Proof.
  split; [reflexivity|]. split; [reflexivity|].
  apply (parse_raises_on_malformed_surplus "/profile" "/profile" "/profile"
           "x/%zz"); reflexivity.
Defined.

(** ** The exceptions and the omissions of [build] *)

Lemma stringify_outcome v :
  match stringifyParam v with
  | Ret _ => contains_object v = false
  | Throw e => e = ObjectParameter /\ contains_object v = true
  end.
Proof.
  induction v as [ | |b|n|s|items IH| |f] using value_nested_ind; try done.
  - simpl. by destruct b.
  - simpl. by destruct (negb _).
  - simpl. by destruct (negb _).
  - rewrite stringifyParam_array. destruct items as [|item items]; [done|].
    assert (match stringify_items (item :: items) with
            | Ret _ => contains_object (VArray (item :: items)) = false
            | Throw e => e = ObjectParameter
                         /\ contains_object (VArray (item :: items)) = true
            end) as H.
    { generalize dependent (item :: items). clear. intros l IH.
      induction IH as [|x l Hx _ IHl]; [done|].
      cbn [stringify_items]. change (contains_object (VArray (x :: l)))
        with (contains_object x || contains_object (VArray l)).
      destruct (stringifyParam x) as [sx|ex]; cbn [mbind outcome_bind].
      - rewrite Hx. destruct (stringify_items l) as [sl|el];
          cbn [mbind outcome_bind]; done.
      - destruct Hx as [-> ->]. done. }
    by destruct (stringify_items (item :: items)).
Qed.

(** X5.  [stringifyParam] returns a string exactly for the values that hold
    no null and no non-array object at any depth of nested arrays; for every
    other value it raises the error about object parameters, and it raises no
    other error. *)
Theorem stringifyParam_refuses_objects (v : value) :
  (contains_object v = true <-> stringifyParam v = Throw ObjectParameter)
  /\ (contains_object v = false <-> exists s, stringifyParam v = Ret s).
Proof.
  pose proof (stringify_outcome v) as H.
  destruct (stringifyParam v) as [s|e].
  - rewrite H. split; [done|]. split; [by exists s|done].
  - destruct H as [-> ->]. split; [done|]. split; [done|by intros [? ?]].
Qed.






Lemma build_loop_undefined blocks result :
  forallb is_part blocks = false ->
  build_loop blocks None result = Throw TypeError.
Proof.
  revert result. induction blocks as [|b bs IH]; intros result; [done|].
  cbn [forallb build_loop]. destruct b as [n validator parser req|value]; [done|].
  simpl. apply IH.
Qed.

(** X7.  [build()] without a record: on a template without parameters it
    returns the encoded path of the template's tokens when the template
    holds no unpaired surrogate and raises the URIError of [encodeURI] when
    it holds one; on a template with a parameter it raises a TypeError (the
    read of a property of undefined), not the error about a missing
    parameter. *)
Theorem build_without_record (template : string) :
  compile_build template None
  = if forallb (fun token => negb (mentions_parameter token))
         (segments "/" template)
    then
      if well_formed template
      then Ret (Encode ("/" +:+ join "/" (segments "/" template)))
      else Throw URIError
    else Throw TypeError.
Proof.
  rewrite (compile_build_blocks _ _ _ (compile_blocks_map template)).
  unfold build_blocks. rewrite <- all_parts_tokens.
  destruct (forallb is_part _) eqn:E.
  - rewrite (all_parts _ E), build_loop_parts. cbn [mbind outcome_bind app].
    rewrite (filter_truthy_clean _ _ (segments_clean "/" template)).
    unfold encodeURI. by rewrite well_formed_tokens.
  - by rewrite (build_loop_undefined _ _ E).
Qed.

Lemma build_loop_result blocks args result :
  build_loop blocks args result
  = more ← build_loop blocks args []; Ret (result ++ more).
Proof.
  revert result. induction blocks as [|b bs IH]; intros result.
  - simpl. by rewrite app_nil_r.
  - cbn [build_loop]. destruct b as [n validator parser req|value].
    + destruct (get_param args n) as [v|e]; [|done]. cbn [mbind outcome_bind].
      destruct (negb (truthy v) && req); [done|].
      destruct (negb (truthy v) && negb req); [apply IH|].
      destruct (stringifyParam v) as [s|e]; [|done]. cbn [mbind outcome_bind].
      rewrite (IH (result ++ [s])), (IH ([] ++ [s])).
      destruct (build_loop bs args []); cbn [mbind outcome_bind]; [|done].
      by rewrite <- app_assoc.
    + rewrite (IH (result ++ [value])), (IH ([] ++ [value])).
      destruct (build_loop bs args []); cbn [mbind outcome_bind]; [|done].
      by rewrite <- app_assoc.
Qed.

(** X8.  A parameter contributes nothing to the built path when it is
    optional and the value read for it is falsy (undefined, null, false, 0,
    NaN, ''), and, required or not, when its value is the empty array: the
    result is the one of the template without that parameter. *)
Theorem build_omits_parameter (template name : string)
    (before rest : list Block) (validator : Validator) (parser : Parser)
    (req : bool) (record : gmap string value) :
  compile_blocks template
    = Ret (before ++ ParameterBlock name validator parser req :: rest) ->
  req = false /\ truthy (read_property record name) = false
  \/ record !! name = Some (VArray []) ->
  compile_build template (Some record)
  = build_blocks (before ++ rest) (Some record).
Proof.
  intros Hc Hv. rewrite (compile_build_blocks _ _ _ Hc).
  unfold build_blocks. rewrite !build_loop_app.
  destruct (build_loop before (Some record) []) as [result|e];
    cbn [mbind outcome_bind build_loop get_param]; [|done].
  destruct Hv as [[-> Hv]|Hv].
  - by rewrite Hv.
  - rewrite (read_property_own _ _ _ Hv).
    cbn [truthy negb andb stringifyParam]. cbn [mbind outcome_bind].
    rewrite (build_loop_result rest _ (result ++ [EmptyString])),
            (build_loop_result rest _ result).
    destruct (build_loop rest (Some record) []) as [more|e];
      cbn [mbind outcome_bind]; [|done].
    by rewrite !List.filter_app, app_nil_r.
Qed.

Lemma build_omits_parameter_witness :
  compile_blocks "/profile/:id*/edit"
    = Ret ([PartBlock "profile"]
           ++ ParameterBlock "id"
                (generateValidator (with_array plain_rules zero_or_more))
                (generateParser (with_array plain_rules zero_or_more)) true
              :: [PartBlock "edit"])
  /\ ({[ "id" := VArray [] ]} : gmap string value) !! "id" = Some (VArray [])
  /\ compile_build "/profile/:id*/edit" (Some {[ "id" := VArray [] ]})
     = Ret "/profile/edit".
Proof.
  split; [reflexivity|]. split; [reflexivity|].
  rewrite (build_omits_parameter "/profile/:id*/edit" "id"
             [PartBlock "profile"] [PartBlock "edit"] _ _ true
             {[ "id" := VArray [] ]} eq_refl ltac:(right; reflexivity)).
  vm_compute. reflexivity.
Defined.

(** ** Tokens of the documented grammar *)

Lemma span_app p a x :
  all_chars p a = true ->
  match x with String c _ => p c | EmptyString => false end = false ->
  span p (a +:+ x) = (a, x).
Proof.
  intros Ha Hx. induction a as [|c a IH]; simpl.
  - destruct x as [|d x]; [done|]. simpl. by rewrite Hx.
  - simpl in Ha. apply andb_true_iff in Ha as [-> Ha]. by rewrite (IH Ha).
Qed.

Lemma modificator_not_special c :
  is_modificator c = true ->
  is_word c = false /\ is_generic_char c = false /\ Ascii.eqb c "<" = false.
Proof. destruct c as [[] [] [] [] [] [] [] []]; vm_compute; done. Qed.

Lemma modificator_text_start p modificator :
  modificator_ok modificator = true ->
  (forall c, is_modificator c = true -> p c = false) ->
  match modificator_text modificator with
  | String c _ => p c
  | EmptyString => false
  end = false.
Proof. destruct modificator as [c|]; simpl; [|done]. intros H Hp. by apply Hp. Qed.

Lemma match_modificator_text modificator :
  modificator_ok modificator = true ->
  match_modificator (modificator_text modificator) = modificator.
Proof. destruct modificator as [c|]; simpl; [|done]. by intros ->. Qed.

Lemma match_generic_modificator modificator :
  modificator_ok modificator = true ->
  match_generic (modificator_text modificator) = None.
Proof.
  destruct modificator as [c|]; simpl; [|done].
  intros (_ & _ & H)%modificator_not_special.
  destruct c as [[] [] [] [] [] [] [] []]; done.
Qed.

Lemma match_generic_text body rest :
  truthy_string body && all_chars is_generic_char body = true ->
  match_generic (generic_text body +:+ rest)
  = Some (generic_text body, rest).
Proof.
  intros [Ht Hb]%andb_true_iff. unfold generic_text, match_generic.
  cbn [String.append]. rewrite append_assoc.
  rewrite (span_app _ _ _ Hb) by done.
  destruct body as [|b body]; [done|]. done.
Qed.

Lemma regexp_match_parameter_token (name : string) (generic : option string)
    (modificator : option ascii) :
  word name = true ->
  from_option (fun body => truthy_string body
                           && all_chars is_generic_char body) true generic
    = true ->
  modificator_ok modificator = true ->
  regexp_match (parameter_token name generic modificator)
  = Some {| m_name := name;
            m_generic := generic_text <$> generic;
            m_modificator := modificator |}.
Proof.
  intros [Hn Hw]%andb_true_iff Hg Hm. unfold parameter_token.
  cbn [regexp_match Ascii.eqb Bool.eqb]. unfold match_here.
  rewrite (span_app _ _ _ Hw).
  2:{ destruct generic as [body|]; [done|]. simpl.
      apply (modificator_text_start _ _ Hm).
      by intros c (? & _ & _)%modificator_not_special. }
  destruct name as [|c name]; [done|].
  destruct generic as [body|]; cbn [from_option fmap option_fmap option_map].
  - rewrite (match_generic_text _ _ Hg).
    by rewrite (match_modificator_text _ Hm).
  - simpl. rewrite (match_generic_modificator _ Hm).
    by rewrite (match_modificator_text _ Hm).
Qed.

(** X9.  A token written after the documented grammar is read as
    documented: for [:name], [:name<type>] and either with one of the
    modifiers '+', '*', '?', the expression captures the whole name, the
    whole [<type>] and the modifier. *)
Theorem grammar_captures (name : string) (generic : option string)
    (modificator : option ascii) :
  word name = true ->
  from_option (fun body => truthy_string body
                           && all_chars is_generic_char body) true generic
    = true ->
  modificator_ok modificator = true ->
  regexp_match (parameter_token name generic modificator)
  = Some {| m_name := name;
            m_generic := generic_text <$> generic;
            m_modificator := modificator |}.
Proof. apply regexp_match_parameter_token. Qed.

Lemma grammar_captures_witness :
  word "user_id" = true
  /\ modificator_ok (Some "+"%char) = true
  /\ regexp_match ":user_id<a|b>+"
     = Some {| m_name := "user_id"; m_generic := Some "<a|b>";
               m_modificator := Some "+"%char |}.
Proof.
  split; [reflexivity|]. split; [reflexivity|].
  apply (grammar_captures "user_id" (Some "a|b") (Some "+"%char));
    reflexivity.
Defined.

(** ** The type between '<' and '>' *)

Lemma all_chars_excludes p c s :
  all_chars p s = true -> p c = false -> includes_char c s = false.
Proof.
  intros Hs Hc. induction s as [|d s IH]; simpl; [done|].
  simpl in Hs. apply andb_true_iff in Hs as [Hd Hs]. rewrite (IH Hs).
  destruct (Ascii.eqb_spec d c) as [->|]; [congruence|done].
Qed.

Lemma all_chars_weaken (p q : ascii -> bool) s :
  (forall c, p c = true -> q c = true) ->
  all_chars p s = true -> all_chars q s = true.
Proof.
  intros Hpq. induction s as [|c s IH]; simpl; [done|].
  intros [Hc Hs]%andb_true_iff. by rewrite (Hpq _ Hc), (IH Hs).
Qed.

Lemma all_chars_app p a b :
  all_chars p (a +:+ b) = all_chars p a && all_chars p b.
Proof.
  induction a as [|c a IH]; simpl; [done|]. by rewrite IH, andb_assoc.
Qed.

Lemma remove_first_end c s :
  includes_char c s = false ->
  remove_first c (s +:+ String c EmptyString) = s.
Proof.
  induction s as [|d s IH]; simpl.
  - by rewrite Ascii.eqb_refl.
  - intros [-> H]%orb_false_iff. by rewrite (IH H).
Qed.

(** The text between '<' and '>', as [compile] recovers it. *)
Lemma generic_body body :
  all_chars is_generic_char body = true ->
  remove_first ">" (remove_first "<" (generic_text body)) = body.
Proof.
  intros H. unfold generic_text. simpl. apply remove_first_end.
  by apply (all_chars_excludes is_generic_char).
Qed.

Lemma word_generic w :
  word w = true -> truthy_string w && all_chars is_generic_char w = true.
Proof.
  intros [Ht Hw]%andb_true_iff. rewrite Ht. simpl.
  apply (all_chars_weaken is_word); [|done].
  intros c Hc. unfold is_generic_char. by rewrite Hc.
Qed.

Lemma word_clean w : word w = true -> clean "|" w.
Proof.
  intros [Ht Hw]%andb_true_iff. split; [done|].
  by apply (all_chars_excludes is_word).
Qed.

(** X10.  The type of a parameter is read from the text between '<' and
    '>' only when that text is [number]; any other word there is ignored
    without an error, and the parameter is an unconstrained string, as if no
    type were written. *)
Theorem word_type_compiles (name w : string) (modificator : option ascii) :
  word name = true ->
  word w = true ->
  modificator_ok modificator = true ->
  compile_token (parameter_token name (Some w) modificator)
  = parameter_block name
      (modificator_rules modificator
         (if String.eqb w "number" then number_rules else plain_rules)).
Proof.
  intros Hn Hw Hm. unfold compile_token.
  pose proof (word_generic _ Hw) as Hg.
  rewrite (regexp_match_parameter_token name (Some w) modificator Hn Hg Hm).
  cbn [m_name fmap option_fmap option_map]. f_equal.
  unfold derive_rules. cbn [m_modificator m_generic]. f_equal.
  unfold generic_rules. cbn [generic_text truthy_string].
  apply andb_true_iff in Hg as [_ Hg]. rewrite (generic_body _ Hg).
  apply andb_true_iff in Hw as [_ Hw].
  rewrite (all_chars_excludes is_word "|" _ Hw eq_refl).
  by destruct (String.eqb w "number").
Qed.

Lemma word_type_compiles_witness :
  word "id" = true /\ word "integer" = true
  /\ compile_token ":id<integer>?"
     = parameter_block "id" (with_required plain_rules false).
Proof.
  split; [reflexivity|]. split; [reflexivity|].
  apply (word_type_compiles "id" "integer" (Some "?"%char)); reflexivity.
Defined.

Lemma join_generic values :
  Forall (fun v => word v = true) values ->
  all_chars is_generic_char (join "|" values) = true.
Proof.
  induction 1 as [|v vs Hv _ IH]; [done|].
  apply word_generic, andb_true_iff in Hv as [_ Hv].
  destruct vs as [|u us]; [done|].
  change (join "|" (v :: u :: us)) with (v +:+ "|" +:+ join "|" (u :: us)).
  by rewrite !all_chars_app, Hv, IH.
Qed.

Lemma append_truthy a b : truthy_string a = true -> truthy_string (a +:+ b) = true.
Proof. by destruct a. Qed.

Lemma includes_char_app c a b :
  includes_char c (a +:+ b) = includes_char c a || includes_char c b.
Proof. induction a as [|d a IH]; simpl; [done|]. by rewrite IH, orb_assoc. Qed.

Lemma union_token_compiles (name first second : string)
    (others : list string) (modificator : option ascii) :
  word name = true ->
  forallb word (first :: second :: others) = true ->
  modificator_ok modificator = true ->
  compile_token
    (parameter_token name (Some (join "|" (first :: second :: others)))
       modificator)
  = parameter_block name
      (modificator_rules modificator
         {| required := true;
            type := TUnion (first :: second :: others);
            array := None |}).
Proof.
  intros Hn Hvs Hm. set (values := first :: second :: others) in *.
  assert (Forall (fun v => word v = true) values) as Hall.
  { apply Forall_forall. intros v Hv. rewrite forallb_forall in Hvs.
    by apply Hvs, list_elem_of_In. }
  pose proof (join_generic _ Hall) as Hbody.
  assert (truthy_string (join "|" values) = true) as Ht.
  { inversion_clear Hall as [|?? Hf _]. apply andb_true_iff in Hf as [Hf _].
    subst values. change (join "|" (first :: second :: others))
      with (first +:+ "|" +:+ join "|" (second :: others)).
    by apply append_truthy. }
  assert (truthy_string (join "|" values)
          && all_chars is_generic_char (join "|" values) = true) as Hg
    by (by rewrite Ht, Hbody).
  unfold compile_token.
  rewrite (regexp_match_parameter_token name (Some (join "|" values))
             modificator Hn Hg Hm).
  cbn [m_name fmap option_fmap option_map]. f_equal.
  unfold derive_rules. cbn [m_modificator m_generic]. f_equal.
  unfold generic_rules. cbn [generic_text truthy_string].
  rewrite (generic_body _ Hbody).
  assert (includes_char "|" (join "|" values) = true) as ->.
  { subst values. change (join "|" (first :: second :: others))
      with (first +:+ "|" +:+ join "|" (second :: others)).
    rewrite includes_char_app. simpl. by rewrite orb_true_r. }
  rewrite (segments_join "|" values).
  2:{ eapply Forall_impl; [exact Hall|]. intros v. apply word_clean. }
  by destruct (String.eqb _ "number").
Qed.

(** X11.  A type written as two or more words separated by '|' makes the
    parameter a union over exactly those words, in the order written, also
    when one of the words is [number]. *)
Theorem union_type_compiles (name first second : string)
    (others : list string) (modificator : option ascii) :
  word name = true ->
  forallb word (first :: second :: others) = true ->
  modificator_ok modificator = true ->
  compile_token
    (parameter_token name (Some (join "|" (first :: second :: others)))
       modificator)
  = parameter_block name
      (modificator_rules modificator
         {| required := true;
            type := TUnion (first :: second :: others);
            array := None |}).
Proof. apply union_token_compiles. Qed.

Lemma union_type_compiles_witness :
  word "id" = true
  /\ forallb word ["number"; "all"] = true
  /\ compile_token ":id<number|all>*"
     = parameter_block "id"
         (with_array {| required := true; type := TUnion ["number"; "all"];
                        array := None |} zero_or_more).
Proof.
  split; [reflexivity|]. split; [reflexivity|].
  apply (union_type_compiles "id" "number" "all" [] (Some "*"%char));
    reflexivity.
Defined.

(** ** Slashes *)

Lemma segments_trailing sep a :
  segments sep (a +:+ String sep EmptyString) = segments sep a.
Proof. rewrite segments_app. unfold segments at 2. simpl. apply app_nil_r. Qed.

Lemma segments_doubled sep a b :
  segments sep (a +:+ String sep (String sep b))
  = segments sep (a +:+ String sep b).
Proof. by rewrite !segments_app, segments_cons. Qed.

(** X12.  [compile] does not see a leading slash, a trailing slash or a
    doubled slash in the template: the compiled blocks are the same with and
    without them. *)
Theorem compile_ignores_extra_slashes (a b : string) :
  compile_blocks (String "/" a) = compile_blocks a
  /\ compile_blocks (a +:+ "/") = compile_blocks a
  /\ compile_blocks (a +:+ "//" +:+ b) = compile_blocks (a +:+ "/" +:+ b).
Proof.
  rewrite !compile_blocks_map.
  change (a +:+ "//" +:+ b) with (a +:+ String "/" (String "/" b)).
  change (a +:+ "/" +:+ b) with (a +:+ String "/" b).
  by rewrite segments_cons, segments_trailing, segments_doubled.
Qed.

(** X13.  A trailing slash on the input does not change what [parse]
    returns, apart from the [path] field, which repeats the input: a null
    stays null and a match keeps its [params]. *)
Theorem parse_ignores_trailing_slash (template p : string)
    (r : option ParseResult) :
  compile_parse template p = Ret r ->
  compile_parse template (p +:+ "/")
  = Ret ((fun x => {| path := p +:+ "/"; params := params x |}) <$> r).
Proof.
  rewrite !(compile_parse_blocks _ _ _ (compile_blocks_map template)).
  unfold parse_blocks.
  destruct (decodeURI p) as [decoded|e] eqn:Hd; [|done].
  rewrite (decodeURI_append _ _ _ _ Hd (eq_refl : decodeURI EmptyString = Ret _)).
  cbn [mbind outcome_bind]. rewrite segments_trailing.
  intros [= <-]. by destruct (parse_loop _ _ 0 None).
Qed.

Lemma parse_ignores_trailing_slash_witness :
  compile_parse "/profile/:id" "/profile/7"
    = Ret (Some {| path := "/profile/7";
                   params := Some {[ "id" := VString "7" ]} |})
  /\ compile_parse "/profile/:id" "/profile/7/"
     = Ret (Some {| path := "/profile/7/";
                    params := Some {[ "id" := VString "7" ]} |}).
Proof.
  split; [vm_compute; reflexivity|].
  apply (parse_ignores_trailing_slash "/profile/:id" "/profile/7"
           (Some {| path := "/profile/7";
                    params := Some {[ "id" := VString "7" ]} |})).
  vm_compute. reflexivity.
Defined.

(** ** The modifiers '+' and '?' at the end of a template *)

Lemma derive_rules_plus m :
  m_modificator m = Some "+"%char -> array (derive_rules m) = Some one_or_more.
Proof. unfold derive_rules, modificator_rules. by intros ->. Qed.

Lemma derive_rules_optional m :
  m_modificator m = Some "?"%char ->
  array (derive_rules m) = None /\ required (derive_rules m) = false.
Proof.
  unfold derive_rules. intros ->. split; [|done].
  by rewrite (modificator_rules_single "?" _ eq_refl), generic_rules_array.
Qed.

Lemma plus_validator rules controls :
  array rules = Some one_or_more ->
  Forall (fun s => truthy_string s = true) controls ->
  generateValidator rules controls
  = forallb (fun s => baseValidator rules (Some s)) controls
    && negb (length controls =? 0).
Proof.
  intros Harr H. unfold generateValidator. rewrite Harr. simpl.
  rewrite (validate_items_unbounded _ _ _ H).
  destruct (forallb _ controls); [|done]. by destruct controls.
Qed.

Lemma plus_parser rules controls :
  array rules = Some one_or_more ->
  Forall (fun s => truthy_string s = true) controls ->
  negb (length controls =? 0) = true ->
  generateParser rules controls
  = VArray (map (fun s => baseParser rules (Some s)) controls).
Proof.
  intros Harr H Hlen. unfold generateParser. rewrite Harr. simpl.
  rewrite (parse_items_unbounded _ _ _ H). simpl. rewrite length_map.
  by destruct controls.
Qed.

(** X14.  For a template whose final descriptor is a '+' parameter, [parse]
    returns null when no raw segment is left at that descriptor's position or
    when one of the segments from there to the end of the input fails the
    base rule; otherwise (the descriptors before it having matched) the
    parameter is the array of all those segments, parsed, in input order.  The binding is the assignment
    [params[name] = ...] of [parse], which for the name [__proto__] sets no
    own key ([set_property]). *)
Theorem one_or_more_consumes_all (template input decoded token : string)
    (tokens : list string) (m : matches) :
  segments "/" template = tokens ++ [token] ->
  regexp_match token = Some m ->
  m_modificator m = Some "+"%char ->
  decodeURI input = Ret decoded ->
  let rules := derive_rules m in
  let parsed := segments "/" decoded in
  let items := drop (length tokens) parsed in
  compile_parse template input
  = Ret (match parse_loop (map compile_token tokens) parsed 0 None with
         | None => None
         | Some before =>
             if forallb (fun s => baseValidator rules (Some s)) items
                && negb (length items =? 0)
             then Some {| path := input;
                          params :=
                            Some (set_property (m_name m)
                                    (VArray (map (fun s => baseParser rules (Some s))
                                                 items))
                                    (default ∅ before)) |}
             else None
         end).
Proof.
  intros Ht Hm Hplus Hd rules parsed items.
  rewrite (compile_parse_blocks _ _ _ (compile_blocks_map template)).
  unfold parse_blocks. rewrite Hd. cbn [mbind outcome_bind]. fold parsed.
  rewrite Ht, map_app, parse_loop_app.
  destruct (parse_loop (map compile_token tokens) parsed 0 None)
    as [before|]; [|done].
  cbn [map]. unfold compile_token at 1. rewrite Hm. fold rules.
  rewrite length_map. cbn [Nat.add parse_loop parameter_block createControls].
  fold items.
  assert (Forall (fun s => truthy_string s = true) items) as Hitems.
  { apply Forall_drop, segments_truthy. }
  pose proof (derive_rules_plus _ Hplus) as Harr. fold rules in Harr.
  change (createControls parsed (length tokens)) with items.
  rewrite (plus_validator rules _ Harr Hitems).
  destruct (forallb _ items && negb (length items =? 0)) eqn:E; [|done].
  apply andb_true_iff in E as [_ E].
  by rewrite (plus_parser rules _ Harr Hitems E).
Qed.

Lemma one_or_more_consumes_all_witness :
  segments "/" "/files/:path+" = ["files"] ++ [":path+"]
  /\ regexp_match ":path+"
     = Some {| m_name := "path"; m_generic := None;
               m_modificator := Some "+"%char |}
  /\ decodeURI "/files" = Ret "/files"
  /\ compile_parse "/files/:path+" "/files" = Ret None.
Proof.
  repeat (split; [reflexivity|]).
  apply (one_or_more_consumes_all "/files/:path+" "/files" "/files" ":path+"
           ["files"]
           {| m_name := "path"; m_generic := None;
              m_modificator := Some "+"%char |});
    reflexivity.
Defined.

Lemma optional_validator rules controls :
  array rules = None -> required rules = false ->
  Forall (fun s => truthy_string s = true) controls ->
  generateValidator rules controls
  = match getInput controls with
    | Some s => baseValidator rules (Some s)
    | None => true
    end.
Proof.
  intros Harr Hreq H. unfold generateValidator. rewrite Harr, Hreq.
  destruct H as [|s ss Hs _]; simpl; [done|]. by rewrite Hs.
Qed.

Lemma optional_parser rules controls :
  array rules = None -> required rules = false ->
  Forall (fun s => truthy_string s = true) controls ->
  generateParser rules controls
  = match getInput controls with
    | Some s => baseParser rules (Some s)
    | None => VUndefined
    end.
Proof.
  intros Harr Hreq H. unfold generateParser. rewrite Harr, Hreq.
  destruct H as [|s ss Hs _]; simpl; [done|]. by rewrite Hs.
Qed.

Lemma baseParser_not_null rules s :
  truthy_string s = true -> baseParser rules (Some s) <> VNull.
Proof.
  intros Hs. unfold baseParser. simpl. rewrite Hs, andb_false_r. simpl.
  by destruct (type rules).
Qed.

(** X15.  For a template whose final descriptor is a '?' parameter (the
    descriptors before it having matched): when the input has no raw segment
    at that descriptor's position, [parse] succeeds and binds the parameter
    to undefined, the key being present; when it has one, [parse] returns
    null if the segment fails the base rule and otherwise binds the
    parameter to the parsed segment itself, not to an array.  The binding is the assignment
    [params[name] = ...] of [parse], which for the name [__proto__] sets no
    own key ([set_property]). *)
Theorem optional_parameter (template input decoded token : string)
    (tokens : list string) (m : matches) :
  segments "/" template = tokens ++ [token] ->
  regexp_match token = Some m ->
  m_modificator m = Some "?"%char ->
  decodeURI input = Ret decoded ->
  let rules := derive_rules m in
  let parsed := segments "/" decoded in
  compile_parse template input
  = Ret (match parse_loop (map compile_token tokens) parsed 0 None with
         | None => None
         | Some before =>
             match parsed !! length tokens with
             | None =>
                 Some {| path := input;
                         params := Some (set_property (m_name m) VUndefined
                                           (default ∅ before)) |}
             | Some s =>
                 if baseValidator rules (Some s)
                 then Some {| path := input;
                              params :=
                                Some (set_property (m_name m)
                                        (baseParser rules (Some s))
                                        (default ∅ before)) |}
                 else None
             end
         end).
Proof.
  intros Ht Hm Hopt Hd rules parsed.
  rewrite (compile_parse_blocks _ _ _ (compile_blocks_map template)).
  unfold parse_blocks. rewrite Hd. cbn [mbind outcome_bind]. fold parsed.
  rewrite Ht, map_app, parse_loop_app.
  destruct (parse_loop (map compile_token tokens) parsed 0 None)
    as [before|]; [|done].
  cbn [map]. unfold compile_token at 1. rewrite Hm. fold rules.
  rewrite length_map. cbn [Nat.add parse_loop parameter_block].
  destruct (derive_rules_optional _ Hopt) as [Harr Hreq]. fold rules in Harr, Hreq.
  assert (Forall (fun s => truthy_string s = true)
            (createControls parsed (length tokens))) as Hc.
  { apply Forall_drop, segments_truthy. }
  rewrite (optional_validator rules _ Harr Hreq Hc),
          (optional_parser rules _ Harr Hreq Hc), head_createControls.
  destruct (parsed !! length tokens) as [s|] eqn:Hs; [|done].
  destruct (baseValidator rules (Some s)); [|done]. cbn [negb].
  assert (truthy_string s = true) as Hts.
  { pose proof (segments_truthy "/" decoded) as Hall. fold parsed in Hall.
    rewrite Forall_forall in Hall. apply Hall.
    by apply list_elem_of_lookup_2 in Hs. }
  pose proof (baseParser_not_null rules s Hts) as Hnn.
  by destruct (baseParser rules (Some s)).
Qed.

Lemma optional_parameter_witness :
  segments "/" "/profile/:id<number>?" = ["profile"] ++ [":id<number>?"]
  /\ regexp_match ":id<number>?"
     = Some {| m_name := "id"; m_generic := Some "<number>";
               m_modificator := Some "?"%char |}
  /\ decodeURI "/profile" = Ret "/profile"
  /\ compile_parse "/profile/:id<number>?" "/profile"
     = Ret (Some {| path := "/profile";
                    params := Some {[ "id" := VUndefined ]} |}).
Proof.
  repeat (split; [reflexivity|]).
  apply (optional_parameter "/profile/:id<number>?" "/profile" "/profile"
           ":id<number>?" ["profile"]
           {| m_name := "id"; m_generic := Some "<number>";
              m_modificator := Some "?"%char |});
    reflexivity.
Defined.

(** ** The keys of [params] *)

Lemma set_property_is_Some name v record key :
  is_Some (set_property name v record !! key)
  <-> is_Some (record !! key) \/ (key = name /\ name <> "__proto__").
Proof.
  unfold set_property. destruct (String.eqb_spec name "__proto__") as [->|Hne].
  - split; [by left|]. by intros [?|[_ ?]].
  - destruct (decide (key = name)) as [->|Hk].
    + rewrite lookup_insert_eq. split; [by right|]. intros _. by eexists.
    + rewrite lookup_insert_ne by done. split; [by left|]. by intros [?|[? _]].
Qed.

Lemma parse_loop_keys tokens parsed i params result key :
  parse_loop (map compile_token tokens) parsed i params = Some result ->
  is_Some (default ∅ result !! key)
  <-> is_Some (default ∅ params !! key)
      \/ (key <> "__proto__"
          /\ exists token, token ∈ tokens /\ parameter_name token = Some key).
Proof.
  revert i params. induction tokens as [|t ts IH]; intros i params.
  - simpl. intros [= <-]. split; [by left|].
    intros [?|(_ & token & Hin & _)]; [done|]. by apply elem_of_nil in Hin.
  - cbn [map parse_loop]. unfold compile_token at 1, parameter_name.
    destruct (regexp_match t) as [m|] eqn:Em.
    + cbn [parameter_block]. destruct (negb _); [done|].
      set (payload := generateParser _ _).
      assert (parse_loop (map compile_token ts) parsed (S i)
                (Some (set_property (m_name m) payload (default ∅ params)))
              = Some result ->
              is_Some (default ∅ result !! key)
              <-> is_Some (default ∅ params !! key)
                  \/ (key <> "__proto__"
                      /\ exists token, token ∈ t :: ts
                           /\ m_name <$> regexp_match token = Some key)) as Hstep.
      { intros H. rewrite (IH _ _ H). cbn [from_option id].
        rewrite set_property_is_Some. split.
        - intros [[?|[-> ?]]|(? & token & ? & ?)].
          + by left.
          + right. split; [done|]. exists t. split; [by left|].
            by rewrite Em.
          + right. split; [done|]. exists token. split; [by right|done].
        - intros [?|(Hk & token & Hin & Hn)]; [by left; left|].
          apply elem_of_cons in Hin as [->|Hin].
          + rewrite Em in Hn. injection Hn as <-. left. by right.
          + right. split; [done|]. by exists token. }
      destruct payload; try done; apply Hstep.
    + destruct (bool_decide _); [|done]. intros H. rewrite (IH _ _ H).
      split.
      * intros [?|(? & token & ? & ?)]; [by left|].
        right. split; [done|]. exists token. split; [by right|done].
      * intros [?|(Hk & token & Hin & Hn)]; [by left|].
        apply elem_of_cons in Hin as [->|Hin]; [by rewrite Em in Hn|].
        right. split; [done|]. by exists token.
Qed.

(** X16.  The keys of the [params] of a successful [parse] are exactly the
    names of the template's parameters, whatever the input: a parameter that
    is absent from the path is a key all the same (bound to undefined), and
    no other key appears.  The one exception is a parameter named
    [__proto__], which is never a key. *)
Theorem params_keys (template input : string) (r : ParseResult)
    (key : string) :
  compile_parse template input = Ret (Some r) ->
  is_Some (param_of r key)
  <-> key <> "__proto__"
      /\ exists token,
           token ∈ segments "/" template /\ parameter_name token = Some key.
Proof.
  rewrite (compile_parse_blocks _ _ _ (compile_blocks_map template)).
  unfold parse_blocks. destruct (decodeURI input) as [decoded|]; [|done].
  cbn [mbind outcome_bind].
  destruct (parse_loop _ _ 0 None) as [result|] eqn:E; [|done].
  intros [= <-]. unfold param_of. cbn [params].
  assert (result ≫= (fun record => record !! key) = default ∅ result !! key)
    as -> by (by destruct result).
  rewrite (parse_loop_keys _ _ _ _ _ key E). cbn [from_option id].
  rewrite lookup_empty. split; [|by right].
  intros [[? ?]|?]; done.
Qed.

Lemma params_keys_witness :
  compile_parse "/profile/:id?" "/profile"
    = Ret (Some {| path := "/profile";
                   params := Some {[ "id" := VUndefined ]} |})
  /\ (is_Some (param_of {| path := "/profile";
                           params := Some {[ "id" := VUndefined ]} |} "id")
      <-> "id" <> "__proto__"
          /\ exists token,
               token ∈ segments "/" "/profile/:id?"
               /\ parameter_name token = Some "id").
Proof.
  split; [vm_compute; reflexivity|].
  apply (params_keys "/profile/:id?" "/profile"
           {| path := "/profile"; params := Some {[ "id" := VUndefined ]} |}
           "id").
  vm_compute. reflexivity.
Defined.

(** ** Templates without modifiers *)

Lemma generic_rules_required generic rules :
  required (generic_rules generic rules) = required rules.
Proof.
  unfold generic_rules. destruct generic as [g|]; [|done].
  destruct (truthy_string g); [|done].
  simpl. by destruct (String.eqb _ _), (includes_char _ _).
Qed.

Lemma modificator_rules_other c rules :
  is_modificator c = false -> modificator_rules (Some c) rules = rules.
Proof.
  destruct c as [[] [] [] [] [] [] [] []]; intros H;
    first [reflexivity | vm_compute in H; discriminate].
Qed.

Lemma demanding_rules m :
  negb (from_option is_modificator false (m_modificator m)) = true ->
  array (derive_rules m) = None /\ required (derive_rules m) = true.
Proof.
  unfold derive_rules. intros H%negb_true_iff.
  destruct (m_modificator m) as [c|]; simpl in H.
  - rewrite (modificator_rules_other _ _ H).
    by rewrite generic_rules_array, generic_rules_required.
  - simpl. by rewrite generic_rules_array, generic_rules_required.
Qed.

Lemma demanding_validator rules controls :
  array rules = None -> required rules = true ->
  generateValidator rules controls = true -> is_Some (getInput controls).
Proof.
  unfold generateValidator. intros -> ->.
  destruct (getInput controls); [by eexists|done].
Qed.

Lemma demanding_single token :
  demanding_token token = true -> array_token token = false.
Proof.
  unfold demanding_token, array_token.
  destruct (regexp_match token) as [m|]; [|done].
  destruct (m_modificator m) as [c|]; [|done]. simpl.
  intros H%negb_true_iff. destruct c as [[] [] [] [] [] [] [] []]; done.
Qed.

Lemma parse_loop_demanding tokens parsed i params result :
  i <= length parsed ->
  forallb demanding_token tokens = true ->
  parse_loop (map compile_token tokens) parsed i params = Some result ->
  i + length tokens <= length parsed.
Proof.
  revert i params. induction tokens as [|t ts IH]; intros i params Hi.
  - simpl. lia.
  - cbn [forallb map parse_loop length]. intros [Ht Hts]%andb_true_iff.
    unfold compile_token at 1. unfold demanding_token in Ht.
    destruct (regexp_match t) as [m|].
    + cbn [parameter_block]. destruct (demanding_rules _ Ht) as [Harr Hreq].
      destruct (generateValidator _ _) eqn:Hv; [|done]. cbn [negb].
      apply (demanding_validator _ _ Harr Hreq) in Hv.
      rewrite head_createControls in Hv. apply lookup_lt_is_Some in Hv.
      destruct (generateParser _ _); try done;
        intros H; apply IH in H; lia || done.
    + destruct (bool_decide _) eqn:Hb; [|done].
      apply bool_decide_eq_true in Hb. symmetry in Hb.
      apply lookup_lt_Some in Hb.
      intros H. apply IH in H; lia || done.
Qed.

(** X17.  For a template none of whose parameters has a modifier, a
    successful [parse] has met one raw segment per descriptor, so the input
    has at least as many segments as the template has tokens; and appending
    any decodable text behind a '/' leaves the result a match with the same
    [params]. *)
Theorem plain_template_prefix (template p decoded extra decoded' : string)
    (r : ParseResult) :
  forallb demanding_token (segments "/" template) = true ->
  decodeURI p = Ret decoded ->
  decodeURI extra = Ret decoded' ->
  compile_parse template p = Ret (Some r) ->
  length (segments "/" template) <= length (segments "/" decoded)
  /\ compile_parse template (p +:+ String "/" extra)
     = Ret (Some {| path := p +:+ String "/" extra; params := params r |}).
Proof.
  intros Hdem Hd Hd' Hp.
  rewrite (compile_parse_blocks _ _ p (compile_blocks_map template)) in Hp.
  rewrite (compile_parse_blocks _ _ _ (compile_blocks_map template)).
  unfold parse_blocks in *. rewrite Hd in Hp.
  rewrite (decodeURI_append _ _ _ _ Hd Hd'). cbn [mbind outcome_bind] in *.
  destruct (parse_loop _ (segments "/" decoded) 0 None) as [result|] eqn:E;
    [|done].
  pose proof (parse_loop_demanding _ _ 0 _ _ ltac:(lia) Hdem E) as Hlen.
  simpl in Hlen. split; [done|].
  rewrite segments_app, parse_loop_surplus.
  - rewrite E. by injection Hp as <-.
  - apply Forall_forall. intros b (token & -> & Hin)%list_elem_of_fmap.
    apply compile_token_single, demanding_single.
    rewrite forallb_forall in Hdem. by apply Hdem, list_elem_of_In.
  - by rewrite length_map.
Qed.

Lemma plain_template_prefix_witness :
  forallb demanding_token (segments "/" "/user/:id<number>") = true
  /\ decodeURI "/user/7" = Ret "/user/7"
  /\ decodeURI "posts" = Ret "posts"
  /\ compile_parse "/user/:id<number>" "/user/7"
     = Ret (Some {| path := "/user/7";
                    params := Some {[ "id" := VNumber (Fin 7) ]} |})
  /\ length (segments "/" "/user/:id<number>") <= length (segments "/" "/user/7")
  /\ compile_parse "/user/:id<number>" "/user/7/posts"
     = Ret (Some {| path := "/user/7/posts";
                    params := Some {[ "id" := VNumber (Fin 7) ]} |}).
Proof.
  split; [reflexivity|]. split; [reflexivity|]. split; [reflexivity|].
  split; [vm_compute; reflexivity|].
  apply (plain_template_prefix "/user/:id<number>" "/user/7" "/user/7"
           "posts" "posts"
           {| path := "/user/7";
              params := Some {[ "id" := VNumber (Fin 7) ]} |});
    [reflexivity|reflexivity|reflexivity|vm_compute; reflexivity].
Defined.

(** ** Decoding the whole path and decoding each segment *)

Lemma hex_value_slash : hex_value "/" = None.
Proof. reflexivity. Qed.

Lemma read_hex2_slash r b :
  read_hex2 r = None -> read_hex2 (r +:+ String "/" b) = None.
Proof.
  destruct r as [|c1 [|c2 r]]; simpl.
  - by destruct b.
  - intros _. by destruct (hex_value c1).
  - by destruct (hex_value c1), (hex_value c2).
Qed.

Lemma read_escapes_slash n r b :
  read_escapes n r = None -> read_escapes n (r +:+ String "/" b) = None.
Proof.
  revert r. induction n as [|n IH]; intros r; [done|].
  destruct r as [|c r]; [done|]. cbn [read_escapes String.append].
  destruct (Ascii.ascii_dec c "%") as [->|Hc].
  2:{ destruct c as [[] [] [] [] [] [] [] []]; done. }
  destruct (read_hex2 r) as [[x r']|] eqn:E.
  - destruct (read_hex2_app _ (String "/" b) _ _ E) as (-> & _ & _).
    destruct (read_escapes n r') eqn:E'; [done|]. by rewrite (IH _ E').
  - by rewrite (read_hex2_slash _ _ E).
Qed.

Lemma decode_escape_slash r b e :
  decode_escape r = Throw e -> decode_escape (r +:+ String "/" b) = Throw e.
Proof.
  unfold decode_escape.
  destruct (read_hex2 r) as [[x r']|] eqn:E.
  2:{ by rewrite (read_hex2_slash _ _ E). }
  destruct (read_hex2_app _ (String "/" b) _ _ E) as (-> & _ & ->).
  destruct (leading_ones x) as [|[|[|[|[|n]]]]]; try done.
  - destruct (read_escapes 1 r') as [more|] eqn:E'.
    + by destruct (read_escapes_app _ _ (String "/" b) _ E') as [-> _].
    + by rewrite (read_escapes_slash _ _ _ E').
  - destruct (read_escapes 2 r') as [more|] eqn:E'.
    + by destruct (read_escapes_app _ _ (String "/" b) _ E') as [-> _].
    + by rewrite (read_escapes_slash _ _ _ E').
  - destruct (read_escapes 3 r') as [more|] eqn:E'.
    + by destruct (read_escapes_app _ _ (String "/" b) _ E') as [-> _].
    + by rewrite (read_escapes_slash _ _ _ E').
Qed.

Lemma decode_from_slash a b skip e :
  decode_from skip a = Throw e ->
  decode_from skip (a +:+ String "/" b) = Throw e.
Proof.
  revert skip. induction a as [|c a IH]; intros skip; [done|].
  cbn [String.append decode_from]. destruct skip as [|skip]; [|apply IH].
  destruct (Ascii.eqb c "%").
  - destruct (decode_escape a) as [[text taken]|e'] eqn:E.
    + destruct (decode_escape_app _ (String "/" b) _ _ E) as [-> _].
      cbn [mbind outcome_bind].
      destruct (decode_from taken a) as [rest|e'] eqn:E'; [done|].
      cbn [mbind outcome_bind]. intros [= <-]. by rewrite (IH _ E').
    + cbn [mbind outcome_bind]. intros [= <-].
      by rewrite (decode_escape_slash _ _ _ E).
  - destruct (decode_from 0 a) as [rest|e'] eqn:E'; [done|].
    cbn [mbind outcome_bind]. intros [= <-]. by rewrite (IH _ E').
Qed.

(** [decodeURI] works piece by piece between slashes. *)
Lemma decodeURI_slash a b :
  decodeURI (a +:+ String "/" b)
  = da ← decodeURI a; db ← decodeURI b; Ret (da +:+ String "/" db).
Proof.
  destruct (decodeURI a) as [da|e] eqn:Ea.
  - destruct (decodeURI b) as [db|e] eqn:Eb.
    + by rewrite (decodeURI_append _ _ _ _ Ea Eb).
    + unfold decodeURI in *.
      rewrite (decode_from_app _ _ 0 _ ltac:(lia) Ea). simpl. by rewrite Eb.
  - unfold decodeURI in *. by rewrite (decode_from_slash _ _ _ _ Ea).
Qed.

Lemma hex_not_slash c x : hex_value c = Some x -> Ascii.eqb c "/" = false.
Proof.
  destruct (Ascii.eqb_spec c "/") as [->|]; [|done]. by rewrite hex_value_slash.
Qed.

Lemma high_not_slash x :
  (x <? 128)%N = false -> (x <? 256)%N = true ->
  Ascii.eqb (ascii_of_N x) "/" = false.
Proof.
  intros H1 H2. apply Ascii.eqb_neq. intros H.
  apply (f_equal N_of_ascii) in H. rewrite N_ascii_embedding in H.
  - simpl in H. subst x. done.
  - by apply N.ltb_lt.
Qed.

Lemma valid_octets_bytes octets :
  valid_octets octets = true ->
  Forall (fun x => (x <? 128)%N = false /\ (x <? 256)%N = true) octets.
Proof.
  unfold valid_octets, continuation.
  destruct octets as [|a [|b [|c [|d [|? ?]]]]]; try done; intros H;
    repeat (apply andb_true_iff in H as [H ?]);
    repeat match goal with
           | H : _ || _ = true |- _ => apply orb_true_iff in H as [H|H]
           | H : _ && _ = true |- _ => apply andb_true_iff in H as [H ?]
           end;
    repeat match goal with
           | H : (_ <=? _)%N = true |- _ => apply N.leb_le in H
           | H : (_ =? _)%N = true |- _ => apply N.eqb_eq in H
           end;
    repeat constructor; (apply N.ltb_ge || apply N.ltb_lt); lia.
Qed.

Lemma read_hex2_digits r b r' :
  read_hex2 r = Some (b, r') ->
  exists c1 c2 x y,
    r = String c1 (String c2 r')
    /\ hex_value c1 = Some x /\ hex_value c2 = Some y.
Proof.
  destruct r as [|c1 [|c2 r]]; try done. simpl.
  destruct (hex_value c1) as [x|] eqn:H1; [|done].
  destruct (hex_value c2) as [y|] eqn:H2; [|done].
  intros [= <- <-]. by exists c1, c2, x, y.
Qed.

Lemma octets_no_slash octets :
  valid_octets octets = true ->
  includes_char "/" (string_of_codes octets) = false.
Proof.
  intros Hv%valid_octets_bytes.
  induction Hv as [|z zs [Hz1 Hz2] _ IH]; [done|].
  simpl. by rewrite (high_not_slash _ Hz1 Hz2).
Qed.

Lemma decode_escape_no_slash r text taken :
  decode_escape r = Ret (text, taken) ->
  includes_char "/" text = false /\ truthy_string text = true.
Proof.
  unfold decode_escape.
  destruct (read_hex2 r) as [[b r']|] eqn:E; [|done].
  destruct (leading_ones b) as [|[|[|[|[|n]]]]]; try done.
  - destruct (uri_reserved (ascii_of_N b)) eqn:Hr; intros [= <- <-].
    + split; [|done].
      destruct (read_hex2_digits _ _ _ E) as (c1 & c2 & x & y & -> & H1 & H2).
      simpl. rewrite (hex_not_slash _ _ H1), (hex_not_slash _ _ H2).
      by destruct r'.
    + split; [|done]. simpl. rewrite orb_false_r.
      destruct (Ascii.eqb_spec (ascii_of_N b) "/") as [Eb|]; [|done].
      rewrite Eb in Hr. done.
  - destruct (read_escapes 1 r') as [more|]; [|done].
    destruct (valid_octets (b :: more)) eqn:Hv; [|done]. intros [= <- <-].
    split; [by apply (octets_no_slash (b :: more))|done].
  - destruct (read_escapes 2 r') as [more|]; [|done].
    destruct (valid_octets (b :: more)) eqn:Hv; [|done]. intros [= <- <-].
    split; [by apply (octets_no_slash (b :: more))|done].
  - destruct (read_escapes 3 r') as [more|]; [|done].
    destruct (valid_octets (b :: more)) eqn:Hv; [|done]. intros [= <- <-].
    split; [by apply (octets_no_slash (b :: more))|done].
Qed.

Lemma decode_from_no_slash a skip da :
  includes_char "/" a = false ->
  decode_from skip a = Ret da ->
  includes_char "/" da = false.
Proof.
  revert skip da. induction a as [|c a IH]; intros skip da; simpl.
  - by intros _ [= <-].
  - intros [Hc Ha]%orb_false_iff. destruct skip as [|skip]; [|by apply IH].
    destruct (Ascii.eqb c "%").
    + destruct (decode_escape a) as [[text taken]|] eqn:E; [|done].
      cbn [mbind outcome_bind].
      destruct (decode_from taken a) as [rest|] eqn:E'; [|done].
      cbn [mbind outcome_bind]. intros [= <-].
      rewrite includes_char_app.
      destruct (decode_escape_no_slash _ _ _ E) as [-> _].
      by rewrite (IH _ _ Ha E').
    + destruct (decode_from 0 a) as [rest|] eqn:E'; [|done].
      cbn [mbind outcome_bind]. intros [= <-]. simpl.
      by rewrite Hc, (IH _ _ Ha E').
Qed.

Lemma decodeURI_truthy a da :
  decodeURI a = Ret da -> truthy_string da = truthy_string a.
Proof.
  unfold decodeURI. destruct a as [|c a]; simpl; [by intros [= <-]|].
  destruct (Ascii.eqb c "%").
  - destruct (decode_escape a) as [[text taken]|] eqn:E; [|done].
    cbn [mbind outcome_bind].
    destruct (decode_from taken a) as [rest|]; [|done].
    cbn [mbind outcome_bind]. intros [= <-].
    destruct (decode_escape_no_slash _ _ _ E) as [_ Ht].
    by apply append_truthy.
  - destruct (decode_from 0 a) as [rest|]; [|done].
    cbn [mbind outcome_bind]. by intros [= <-].
Qed.

Lemma split_first sep s :
  includes_char sep s = true ->
  exists a b, s = a +:+ String sep b /\ includes_char sep a = false.
Proof.
  induction s as [|c s IH]; simpl; [done|].
  destruct (Ascii.eqb_spec c sep) as [->|Hc].
  - intros _. by exists EmptyString, s.
  - simpl. intros (a & b & -> & Ha)%IH. exists (String c a), b.
    split; [done|]. simpl. rewrite Ha.
    by destruct (Ascii.eqb_spec c sep).
Qed.

Lemma length_append a b :
  String.length (a +:+ b) = String.length a + String.length b.
Proof. induction a as [|c a IH]; simpl; [done|]. by rewrite IH. Qed.

Lemma split_decoded input decoded :
  decodeURI input = Ret decoded ->
  Forall2 (fun raw segment => decodeURI raw = Ret segment)
    (split "/" input) (split "/" decoded).
Proof.
  assert (forall n input decoded,
            String.length input <= n -> decodeURI input = Ret decoded ->
            Forall2 (fun raw segment => decodeURI raw = Ret segment)
              (split "/" input) (split "/" decoded)) as G;
    [|by apply (G (String.length input))].
  clear. induction n as [|n IH]; intros input decoded Hlen Hd.
  - destruct input; [|simpl in Hlen; lia].
    injection Hd as <-. by repeat constructor.
  - destruct (includes_char "/" input) eqn:Hs.
    + destruct (split_first _ _ Hs) as (a & b & -> & Ha).
      rewrite decodeURI_slash in Hd.
      destruct (decodeURI a) as [da|] eqn:Ea; [|done].
      destruct (decodeURI b) as [db|] eqn:Eb; [|done].
      cbn [mbind outcome_bind] in Hd. injection Hd as <-.
      rewrite (split_app_free _ _ _ Ha).
      rewrite (split_app_free _ _ _ (decode_from_no_slash _ _ _ Ha Ea)).
      constructor; [done|]. apply IH; [|done].
      rewrite length_append in Hlen. simpl in Hlen. lia.
    + rewrite (split_free _ _ Hs).
      rewrite (split_free _ _ (decode_from_no_slash _ _ _ Hs Hd)).
      by repeat constructor.
Qed.

(** X18.  Decoding the whole input and then splitting it, as [parse] does,
    gives the same raw segments as splitting the input first and decoding
    each segment: the two have the same number of segments, and each raw
    segment is the decoding of the piece of the input at its position.  An
    escaped slash never makes a boundary. *)
Theorem segments_decoded_one_by_one (input decoded : string) :
  decodeURI input = Ret decoded ->
  Forall2 (fun raw segment => decodeURI raw = Ret segment)
    (segments "/" input) (segments "/" decoded).
Proof.
  intros H%split_decoded. unfold segments.
  induction H as [|raw segment raws segs Hd _ IH]; simpl; [constructor|].
  rewrite (decodeURI_truthy _ _ Hd).
  destruct (truthy_string raw); [by constructor|done].
Qed.

Lemma segments_decoded_one_by_one_witness :
  decodeURI "/a%20b//c%2Fd/" = Ret "/a b//c%2Fd/"
  /\ Forall2 (fun raw segment => decodeURI raw = Ret segment)
       ["a%20b"; "c%2Fd"] ["a b"; "c%2Fd"].
Proof.
  split; [reflexivity|].
  apply (segments_decoded_one_by_one "/a%20b//c%2Fd/" "/a b//c%2Fd/").
  reflexivity.
Defined.

(** ** Round trip through [build] and [parse]: literals and plain parameters *)

Lemma segment_for_cases record token s :
  segment_for record token = Some s ->
  (mentions_parameter token = false /\ s = token)
  \/ (exists name,
        token = String ":" name /\ word name = true
        /\ record !! name = Some (VString s)
        /\ clean "/" s /\ well_formed s = true).
Proof.
  unfold segment_for. destruct (mentions_parameter token) eqn:Hm.
  2:{ intros [= <-]. by left. }
  destruct token as [|c name]; [done|].
  destruct (Ascii.ascii_dec c ":") as [->|Hc].
  2:{ destruct c as [[] [] [] [] [] [] [] []]; done. }
  destruct (word name) eqn:Hw; [|done].
  destruct (record !! name) as [[ | | | |v| | | ]|] eqn:Hr; try done.
  destruct (truthy_string v && negb (includes_char "/" v) && well_formed v)
    eqn:Hv; [|done].
  intros [= <-]. right. exists name.
  apply andb_true_iff in Hv as [[Ht Hs]%andb_true_iff Hwf].
  apply negb_true_iff in Hs. done.
Qed.

Lemma plain_token_compiles name :
  word name = true ->
  compile_token (String ":" name) = parameter_block name plain_rules.
Proof.
  intros Hw. unfold compile_token.
  pose proof (regexp_match_parameter_token name None None Hw eq_refl eq_refl)
    as H.
  unfold parameter_token in H. cbn [from_option modificator_text] in H.
  rewrite !append_nil_r in H. by rewrite H.
Qed.

Lemma literal_token_compiles token :
  mentions_parameter token = false -> compile_token token = PartBlock token.
Proof. intros H%regexp_match_none. unfold compile_token. by rewrite H. Qed.

Lemma build_loop_plain record tokens segs result :
  path_segments record tokens = Some segs ->
  build_loop (map compile_token tokens) (Some record) result
  = Ret (result ++ segs).
Proof.
  revert segs result. induction tokens as [|t ts IH]; intros segs result.
  - simpl. intros [= <-]. by rewrite app_nil_r.
  - cbn [path_segments map].
    destruct (segment_for record t) as [s|] eqn:Hs; [|done].
    destruct (path_segments record ts) as [ss|] eqn:Hss; [|done].
    intros [= <-].
    destruct (segment_for_cases _ _ _ Hs)
      as [[Hm ->]|(name & -> & Hw & Hr & [Ht _] & _)].
    + rewrite (literal_token_compiles _ Hm). cbn [build_loop].
      rewrite (IH _ _ eq_refl). by rewrite <- app_assoc.
    + rewrite (plain_token_compiles _ Hw).
      cbn [parameter_block build_loop get_param mbind outcome_bind
           required plain_rules].
      rewrite (read_property_own _ _ _ Hr). cbn [truthy]. rewrite Ht.
      cbn [negb andb stringifyParam truthy]. rewrite Ht.
      cbn [negb toString mbind outcome_bind].
      rewrite (IH _ _ eq_refl). by rewrite <- app_assoc.
Qed.

Lemma path_segments_clean record tokens segs :
  Forall (clean "/") tokens ->
  Forall (fun t => well_formed t = true) tokens ->
  path_segments record tokens = Some segs ->
  Forall (clean "/") segs /\ Forall (fun s => well_formed s = true) segs.
Proof.
  intros Hc. revert segs. induction Hc as [|t ts Ht _ IH]; intros segs Hw.
  - simpl. intros [= <-]. by split.
  - apply Forall_cons in Hw as [Hwt Hws]. cbn [path_segments].
    destruct (segment_for record t) as [s|] eqn:Hs; [|done].
    destruct (path_segments record ts) as [ss|] eqn:Hss; [|done].
    intros [= <-]. destruct (IH _ Hws eq_refl) as [IH1 IH2].
    destruct (segment_for_cases _ _ _ Hs)
      as [[Hm ->]|(name & -> & _ & _ & Hcl & Hwf)];
      by split; constructor.
Qed.

Lemma set_property_lookup name v record key :
  set_property name v record !! key
  = if bool_decide (key = name /\ name <> "__proto__")
    then Some v else record !! key.
Proof.
  unfold set_property. destruct (String.eqb_spec name "__proto__") as [->|Hne].
  - rewrite bool_decide_eq_false_2; [done|]. by intros [_ ?].
  - destruct (decide (key = name)) as [->|Hk].
    + rewrite lookup_insert_eq. by rewrite bool_decide_eq_true_2.
    + rewrite lookup_insert_ne by done.
      rewrite bool_decide_eq_false_2; [done|]. by intros [? _].
Qed.

Lemma word_mentions name :
  word name = true -> mentions_parameter (String ":" name) = true.
Proof. intros [Ht Hw]%andb_true_iff. destruct name as [|c name]; [done|].
  simpl in Hw. apply andb_true_iff in Hw as [Hc _]. simpl. by rewrite Hc. Qed.

Lemma parse_loop_plain record tokens segs :
  path_segments record tokens = Some segs ->
  forall before params,
    (forall n x, default ∅ params !! n = Some x -> record !! n = Some x) ->
    exists result,
      parse_loop (map compile_token tokens) (before ++ segs) (length before)
        params = Some result
      /\ (forall n x, default ∅ result !! n = Some x -> record !! n = Some x)
      /\ (forall n x, default ∅ params !! n = Some x
                      -> default ∅ result !! n = Some x)
      /\ (forall name, word name = true -> String ":" name ∈ tokens ->
                       name <> "__proto__" ->
                       default ∅ result !! name = record !! name).
Proof.
  revert segs. induction tokens as [|t ts IH]; intros segs.
  - simpl. intros [= <-] before params HP. exists params.
    repeat split; [done..|]. intros name _ Hin. by apply elem_of_nil in Hin.
  - cbn [path_segments map].
    destruct (segment_for record t) as [s|] eqn:Hs; [|done].
    destruct (path_segments record ts) as [ss|] eqn:Hss; [|done].
    intros [= <-] before params HP.
    assert (before ++ s :: ss = (before ++ [s]) ++ ss) as Eapp
      by (by rewrite <- app_assoc).
    assert (S (length before) = length (before ++ [s])) as Elen
      by (rewrite length_app; simpl; lia).
    cbn [parse_loop]. rewrite list_lookup_middle by done.
    destruct (segment_for_cases _ _ _ Hs)
      as [[Hm ->]|(name0 & -> & Hw & Hr & [Ht _] & _)].
    + rewrite (literal_token_compiles _ Hm).
      rewrite bool_decide_eq_true_2 by done.
      rewrite Eapp, Elen.
      destruct (IH _ eq_refl (before ++ [t]) params HP)
        as (result & E & HP' & Hmono & Hcov).
      exists result. repeat split; [done..|].
      intros name Hwn Hin Hne. apply elem_of_cons in Hin as [<-|Hin].
      * by rewrite (word_mentions _ Hwn) in Hm.
      * by apply Hcov.
    + rewrite (plain_token_compiles _ Hw). cbn [parameter_block].
      unfold createControls. rewrite drop_app_length.
      rewrite (plain_validator _ _ Ht), (plain_parser _ _ Ht). cbn [negb].
      rewrite Eapp, Elen.
      set (params1 := Some (set_property name0 (VString s) (default ∅ params))).
      assert (forall n x, default ∅ params1 !! n = Some x
                          -> record !! n = Some x) as HP1.
      { intros n x. subst params1. cbn [from_option id].
        rewrite set_property_lookup. case_bool_decide as Hd; [|apply HP].
        destruct Hd as [-> _]. by intros [= <-]. }
      assert (forall n x, default ∅ params !! n = Some x
                          -> default ∅ params1 !! n = Some x) as Hm1.
      { intros n x Hn. subst params1. cbn [from_option id].
        rewrite set_property_lookup. case_bool_decide as Hd; [|done].
        destruct Hd as [-> _]. apply HP in Hn. congruence. }
      destruct (IH _ eq_refl (before ++ [s]) params1 HP1)
        as (result & E & HP' & Hmono & Hcov).
      exists result. repeat split; [done|done|by auto|].
      intros name Hwn Hin Hne. apply elem_of_cons in Hin as [Heq|Hin].
      * injection Heq as ->. rewrite Hr. apply Hmono. subst params1.
        cbn [from_option id]. rewrite set_property_lookup.
        by rewrite bool_decide_eq_true_2.
      * by apply Hcov.
Qed.

(** X19.  For every template made of literals and plain parameters
    [:name], and every record that binds each of those names to a non-empty
    string without '/': [build] returns the encoded path of the literals and
    the bound strings, in template order, and [parse] of that path succeeds
    and gives back, for every parameter of the template, the string the
    record binds it to (a parameter named [__proto__] apart). *)
Theorem plain_round_trip (template : string) (record : gmap string value)
    (segs : list string) :
  well_formed template = true ->
  path_segments record (segments "/" template) = Some segs ->
  exists r,
    compile_build template (Some record)
      = Ret (Encode ("/" +:+ join "/" segs))
    /\ compile_parse template (Encode ("/" +:+ join "/" segs))
       = Ret (Some r)
    /\ path r = Encode ("/" +:+ join "/" segs)
    /\ forall name,
         word name = true ->
         String ":" name ∈ segments "/" template ->
         name <> "__proto__" ->
         param_of r name = record !! name.
Proof.
  intros Hwf Hsegs.
  destruct (path_segments_clean _ _ _ (segments_clean "/" template)
              (segments_well_formed "/" template eq_refl Hwf) Hsegs)
    as [Hclean Hwfs].
  destruct (parse_loop_plain _ _ _ Hsegs [] None) as (result & E & _ & _ & Hcov).
  { intros n x. cbn [from_option id]. by rewrite lookup_empty. }
  change ("/" +:+ join "/" segs) with (String "/" (join "/" segs)).
  exists {| path := Encode (String "/" (join "/" segs)); params := result |}.
  split; [|split; [|split; [done|]]].
  - rewrite (compile_build_blocks _ _ _ (compile_blocks_map template)).
    unfold build_blocks. rewrite (build_loop_plain _ _ _ _ Hsegs).
    cbn [mbind outcome_bind app].
    rewrite (filter_truthy_clean _ _ Hclean).
    by apply encodeURI_well_formed, assembled_well_formed.
  - rewrite (compile_parse_blocks _ _ _ (compile_blocks_map template)).
    unfold parse_blocks.
    rewrite decode_encode by (by apply assembled_well_formed).
    cbn [mbind outcome_bind]. rewrite (segments_rebuild _ _ Hclean).
    simpl in E. by rewrite E.
  - intros name Hw Hin Hne. unfold param_of. cbn [params].
    rewrite <- (Hcov name Hw Hin Hne). by destruct result.
Qed.

Lemma plain_round_trip_witness :
  well_formed "/org/:org/user/:id" = true
  /\ path_segments {[ "org" := VString "acme"; "id" := VString "a b" ]}
       (segments "/" "/org/:org/user/:id")
     = Some ["org"; "acme"; "user"; "a b"]
  /\ exists r,
       compile_build "/org/:org/user/:id"
         (Some {[ "org" := VString "acme"; "id" := VString "a b" ]})
         = Ret (Encode ("/" +:+ join "/" ["org"; "acme"; "user"; "a b"]))
       /\ compile_parse "/org/:org/user/:id"
            (Encode ("/" +:+ join "/" ["org"; "acme"; "user"; "a b"]))
          = Ret (Some r)
       /\ path r = Encode ("/" +:+ join "/" ["org"; "acme"; "user"; "a b"])
       /\ forall name,
            word name = true ->
            String ":" name ∈ segments "/" "/org/:org/user/:id" ->
            name <> "__proto__" ->
            param_of r name
            = ({[ "org" := VString "acme"; "id" := VString "a b" ]}
               : gmap string value) !! name.
Proof.
  split; [reflexivity|]. split; [vm_compute; reflexivity|].
  apply (plain_round_trip "/org/:org/user/:id"
           {[ "org" := VString "acme"; "id" := VString "a b" ]}
           ["org"; "acme"; "user"; "a b"]);
    [reflexivity|vm_compute; reflexivity].
Defined.

(** ** Round trip of an array parameter *)

Lemma stringify_strings vs :
  Forall (fun v => truthy_string v = true) vs ->
  stringify_items (map VString vs) = Ret vs.
Proof.
  induction 1 as [|v vs Hv _ IH]; [done|].
  cbn [map stringify_items stringifyParam truthy]. rewrite Hv.
  cbn [negb toString mbind outcome_bind]. by rewrite IH.
Qed.

Lemma stringify_string_array vs :
  Forall (fun v => truthy_string v = true) vs ->
  stringifyParam (VArray (map VString vs)) = Ret (join "/" vs).
Proof.
  intros H. rewrite stringifyParam_array.
  destruct vs as [|v vs]; [done|].
  change (map VString (v :: vs)) with (VString v :: map VString vs) at 1.
  cbv iota. by rewrite (stringify_strings _ H).
Qed.

Lemma segment_values vs :
  forallb segment_value vs = true ->
  Forall (clean "/") vs /\ Forall (fun v => well_formed v = true) vs.
Proof.
  induction vs as [|v vs IH]; simpl; [done|].
  intros [[[Ht Hs]%andb_true_iff Hw]%andb_true_iff [IH1 IH2]%IH]%andb_true_iff.
  apply negb_true_iff in Hs. by split; constructor.
Qed.

Lemma string_items_valid rules vs :
  type rules = TString ->
  Forall (fun v => truthy_string v = true) vs ->
  forallb (fun s => baseValidator rules (Some s)) vs = true
  /\ map (fun s => baseParser rules (Some s)) vs = map VString vs.
Proof.
  intros Htype. induction 1 as [|v vs Hv _ [IH1 IH2]]; [done|].
  cbn [forallb map]. rewrite IH1, IH2.
  unfold baseValidator, baseParser. cbn [truthy_input from_option id].
  by rewrite Hv, andb_false_r, Htype.
Qed.

Lemma filter_joined lit vs :
  truthy_string lit = true ->
  Forall (fun v => truthy_string v = true) vs ->
  join "/" (List.filter truthy_string [lit; join "/" vs]) = join "/" (lit :: vs).
Proof.
  intros Hl Hvs. simpl. rewrite Hl.
  destruct Hvs as [|v vs Hv _]; [done|].
  assert (truthy_string (join "/" (v :: vs)) = true) as ->; [|done].
  destruct vs; [done|]. by apply append_truthy.
Qed.

(** X20.  For every template made of one literal followed by a string
    parameter with the modifier '*', and every array of non-empty strings
    without '/', the empty array included: [build] of a record that binds the
    parameter to that array returns a path whose [parse] succeeds and binds
    the parameter to the same array, in the same order.  The binding is the assignment
    [params[name] = ...] of [parse], which for the name [__proto__] sets no
    own key ([set_property]). *)
Theorem array_round_trip (template lit name : string) (vs : list string)
    (record : gmap string value) :
  well_formed template = true ->
  segments "/" template = [lit; parameter_token name None (Some "*"%char)] ->
  mentions_parameter lit = false ->
  word name = true ->
  record !! name = Some (VArray (map VString vs)) ->
  forallb segment_value vs = true ->
  exists built,
    compile_build template (Some record) = Ret built
    /\ compile_parse template built
       = Ret (Some {| path := built;
                      params :=
                        Some (set_property name (VArray (map VString vs)) ∅) |}).
Proof.
  intros Hwf Htokens Hlit Hname Hr Hvs.
  destruct (segment_values _ Hvs) as [Hclean Hwfs].
  assert (Forall (fun v => truthy_string v = true) vs) as Htruthy.
  { eapply Forall_impl; [exact Hclean|]. by intros v [? _]. }
  pose proof (segments_clean "/" template) as Hc.
  pose proof (segments_well_formed "/" template eq_refl Hwf) as Hw.
  rewrite Htokens in Hc, Hw.
  apply Forall_cons in Hc as [Hlc _]. apply Forall_cons in Hw as [Hlw _].
  set (rules := with_array plain_rules zero_or_more).
  assert (compile_blocks template
          = Ret [PartBlock lit; parameter_block name rules]) as Hblocks.
  { rewrite compile_blocks_map, Htokens. cbn [map].
    rewrite (literal_token_compiles _ Hlit). unfold compile_token.
    by rewrite (regexp_match_parameter_token name None (Some "*"%char)
                  Hname eq_refl eq_refl). }
  exists (Encode (String "/" (join "/" (lit :: vs)))). split.
  - rewrite (compile_build_blocks _ _ _ Hblocks). unfold build_blocks.
    cbn [build_loop parameter_block get_param mbind outcome_bind app].
    rewrite (read_property_own _ _ _ Hr). cbn [truthy negb andb].
    rewrite (stringify_string_array _ Htruthy).
    cbn [mbind outcome_bind build_loop app].
    destruct Hlc as [Hlt _]. rewrite (filter_joined _ _ Hlt Htruthy).
    apply encodeURI_well_formed, assembled_well_formed. by constructor.
  - rewrite (compile_parse_blocks _ _ _ Hblocks). unfold parse_blocks.
    rewrite decode_encode by (apply assembled_well_formed; by constructor).
    cbn [mbind outcome_bind].
    rewrite (segments_rebuild "/" (lit :: vs)) by (by constructor).
    cbn [parse_loop parameter_block lookup list_lookup createControls drop].
    rewrite bool_decide_eq_true_2 by done.
    change (drop 0 vs) with vs.
    rewrite (star_validator rules eq_refl _ Htruthy),
            (star_parser rules eq_refl _ Htruthy).
    destruct (string_items_valid rules vs eq_refl Htruthy) as [-> ->].
    done.
Qed.

Lemma array_round_trip_witness :
  well_formed "/files/:path*" = true
  /\ segments "/" "/files/:path*"
     = ["files"; parameter_token "path" None (Some "*"%char)]
  /\ ({[ "path" := VArray (map VString ["a b"; "c"]) ]} : gmap string value)
       !! "path" = Some (VArray (map VString ["a b"; "c"]))
  /\ forallb segment_value ["a b"; "c"] = true
  /\ exists built,
       compile_build "/files/:path*"
         (Some {[ "path" := VArray (map VString ["a b"; "c"]) ]}) = Ret built
       /\ compile_parse "/files/:path*" built
          = Ret (Some {| path := built;
                         params :=
                           Some (set_property "path"
                                   (VArray (map VString ["a b"; "c"])) ∅) |}).
Proof.
  repeat (split; [reflexivity|]).
  apply (array_round_trip "/files/:path*" "files" "path" ["a b"; "c"]
           {[ "path" := VArray (map VString ["a b"; "c"]) ]});
    reflexivity.
Defined.

(** ** Round trip of a number parameter *)

Lemma digit_value_pretty d :
  (d < 10)%N -> digit_value 10 (pretty_N_char d) = Some (Z.of_N d).
Proof.
  intros H.
  assert (d = 0 \/ d = 1 \/ d = 2 \/ d = 3 \/ d = 4 \/ d = 5 \/ d = 6
          \/ d = 7 \/ d = 8 \/ d = 9)%N as Hd by lia.
  repeat (destruct Hd as [->|Hd]; [reflexivity|]). by subst.
Qed.

Lemma of_N_div_mod x :
  Z.of_N x = (10 * Z.of_N (x `div` 10) + Z.of_N (x `mod` 10))%Z.
Proof.
  rewrite (N.div_mod x 10) at 1 by done.
  by rewrite N2Z.inj_add, N2Z.inj_mul.
Qed.

Lemma read_digits_pretty x :
  (0 < x)%N ->
  forall s acc,
    default 0%Z acc = 0%Z ->
    read_digits 10 (pretty_N_go x s) acc = read_digits 10 s (Some (Z.of_N x)).
Proof.
  induction (N.lt_wf_0 x) as [x _ IH]. intros Hx s acc Hacc.
  rewrite pretty_N_go_step by done.
  assert (x `mod` 10 < 10)%N as Hmod by (by apply N.mod_lt).
  destruct (decide (x `div` 10 = 0)%N) as [E|E].
  - rewrite E, pretty_N_go_0. cbn [read_digits].
    rewrite (digit_value_pretty _ Hmod), Hacc. do 2 f_equal.
    rewrite (of_N_div_mod x), E. done.
  - rewrite IH; [| apply N.div_lt; lia | by apply N.neq_0_lt_0 | done].
    cbn [read_digits]. rewrite (digit_value_pretty _ Hmod).
    cbn [from_option id]. do 2 f_equal. by rewrite (of_N_div_mod x).
Qed.

Lemma pretty_first_digit x s :
  (0 < x)%N ->
  exists c rest, pretty_N_go x s = String c rest /\ nonzero_digit c = true.
Proof.
  revert s. induction (N.lt_wf_0 x) as [x _ IH]. intros s Hx.
  rewrite pretty_N_go_step by done.
  destruct (decide (x `div` 10 = 0)%N) as [E|E].
  - rewrite E, pretty_N_go_0. eexists _, _. split; [done|].
    assert (x < 10)%N as Hlt.
    { apply N.div_small_iff in E; [done|lia]. }
    rewrite N.mod_small by done.
    assert (x = 1 \/ x = 2 \/ x = 3 \/ x = 4 \/ x = 5 \/ x = 6
            \/ x = 7 \/ x = 8 \/ x = 9)%N as Hd by lia.
    repeat (destruct Hd as [->|Hd]; [reflexivity|]). by subst.
  - apply IH; [apply N.div_lt; lia | by apply N.neq_0_lt_0].
Qed.

Lemma pretty_N_go_decimal x s :
  all_chars decimal_char s = true ->
  all_chars decimal_char (pretty_N_go x s) = true.
Proof.
  revert s. induction (N.lt_wf_0 x) as [x _ IH]. intros s Hs.
  destruct (decide (0 < x)%N) as [Hx|Hx].
  - rewrite pretty_N_go_step by done. apply IH; [apply N.div_lt; lia|].
    simpl. rewrite Hs, andb_true_r.
    unfold pretty_N_char. by repeat case_match.
  - assert (x = 0%N) as -> by lia. by rewrite pretty_N_go_0.
Qed.

Lemma pretty_Z_decimal (z : Z) : all_chars decimal_char (pretty z) = true.
Proof.
  destruct z as [|p|p]; [done| |].
  - unfold pretty, pretty_Z, pretty, pretty_positive, pretty, pretty_N.
    rewrite decide_False by done. by apply pretty_N_go_decimal.
  - unfold pretty, pretty_Z, pretty, pretty_positive, pretty, pretty_N.
    rewrite decide_False by done. simpl. by apply pretty_N_go_decimal.
Qed.

Lemma ascii_well_formed s :
  all_chars (fun c => (code c <? 128)%N) s = true -> well_formed s = true.
Proof.
  induction s as [|c s IH]; simpl; [done|].
  intros [-> Hs]%andb_true_iff. by apply IH.
Qed.

Lemma decimal_char_ascii c :
  decimal_char c = true -> (code c <? 128)%N = true.
Proof. destruct c as [[] [] [] [] [] [] [] []]; vm_compute; done. Qed.

Lemma parseInt_positive c rest :
  nonzero_digit c = true ->
  parseInt (String c rest)
  = match read_digits 10 (String c rest) None with
    | None => NaN
    | Some n => to_double (1 * n)
    end.
Proof.
  destruct c as [[] [] [] [] [] [] [] []]; intros H;
    try (vm_compute in H; discriminate);
    by destruct rest as [|b [|d rest]].
Qed.

Lemma parseInt_negative c rest :
  nonzero_digit c = true ->
  parseInt (String "-" (String c rest))
  = match read_digits 10 (String c rest) None with
    | None => NaN
    | Some n => to_double (-1 * n)
    end.
Proof.
  destruct c as [[] [] [] [] [] [] [] []]; intros H;
    try (vm_compute in H; discriminate);
    by destruct rest as [|d rest].
Qed.

(** Below [2^53] an integer is its own Number value. *)
Lemma to_double_exact z : (Z.abs z < 2 ^ 53)%Z -> to_double z = Fin z.
Proof. intros H%Z.ltb_lt. unfold to_double. cbv zeta. by rewrite H. Qed.

(** [parseInt] reads back what [toString] writes for an integer below
    [2^53]. *)
Lemma parseInt_pretty (z : Z) :
  (Z.abs z < 2 ^ 53)%Z -> parseInt (pretty z) = Fin z.
Proof.
  intros Hz. rewrite <- (to_double_exact z Hz).
  destruct z as [|p|p]; [done| |].
  - unfold pretty, pretty_Z, pretty, pretty_positive, pretty, pretty_N.
    rewrite decide_False by done.
    destruct (pretty_first_digit (N.pos p) "" ltac:(lia)) as (c & rest & E & Hc).
    pose proof (read_digits_pretty (N.pos p) ltac:(lia) "" None eq_refl) as Hr.
    rewrite E in *. rewrite (parseInt_positive _ _ Hc), Hr. done.
  - unfold pretty, pretty_Z, pretty, pretty_positive, pretty, pretty_N.
    rewrite decide_False by done.
    destruct (pretty_first_digit (N.pos p) "" ltac:(lia)) as (c & rest & E & Hc).
    pose proof (read_digits_pretty (N.pos p) ltac:(lia) "" None eq_refl) as Hr.
    rewrite E in *. cbn [String.append].
    rewrite (parseInt_negative _ _ Hc), Hr. done.
Qed.

Lemma pretty_Z_segment (z : Z) : segment_value (pretty z) = true.
Proof.
  pose proof (pretty_Z_decimal z) as H. unfold segment_value.
  rewrite (all_chars_excludes decimal_char "/" _ H eq_refl).
  rewrite ascii_well_formed.
  2:{ apply (all_chars_weaken decimal_char); [apply decimal_char_ascii|done]. }
  assert (truthy_string (pretty z) = true) as ->; [|done].
  destruct z as [|p|p]; [done| |done].
  unfold pretty, pretty_Z, pretty, pretty_positive, pretty, pretty_N.
  rewrite decide_False by done.
  by destruct (pretty_first_digit (N.pos p) "" ltac:(lia)) as (c & rest & -> & _).
Qed.

(** X21.  For every template made of one literal followed by a required
    parameter of type number, and every integer other than 0 in the range
    where a Number is exact: [build] of a record that binds the parameter to
    the integer returns a path whose [parse] succeeds and binds the parameter
    to the same integer, as a number.  The binding is the assignment
    [params[name] = ...] of [parse], which for the name [__proto__] sets no
    own key ([set_property]). *)
Theorem number_round_trip (template lit name : string) (z : Z)
    (record : gmap string value) :
  well_formed template = true ->
  segments "/" template = [lit; parameter_token name (Some "number") None] ->
  mentions_parameter lit = false ->
  word name = true ->
  record !! name = Some (VNumber (Fin z)) ->
  z <> 0%Z ->
  (Z.abs z < 2 ^ 53)%Z ->
  exists built,
    compile_build template (Some record) = Ret built
    /\ compile_parse template built
       = Ret (Some {| path := built;
                      params := Some (set_property name (VNumber (Fin z)) ∅) |}).
Proof.
  intros Hwf Htokens Hlit Hname Hr Hz Hbound.
  assert ((Z.abs z <? 2 ^ 53)%Z = true) as Hsmall by (by apply Z.ltb_lt).
  pose proof (pretty_Z_segment z) as Hseg.
  destruct (segment_values [pretty z]) as [Hclean Hwfs];
    [by simpl; rewrite Hseg|].
  apply Forall_cons in Hclean as [[Ht Hs] _].
  apply Forall_cons in Hwfs as [Hw _].
  pose proof (segments_clean "/" template) as Hc.
  pose proof (segments_well_formed "/" template eq_refl Hwf) as Hwt.
  rewrite Htokens in Hc, Hwt.
  apply Forall_cons in Hc as [Hlc _]. apply Forall_cons in Hwt as [Hlw _].
  assert (compile_blocks template
          = Ret [PartBlock lit; parameter_block name number_rules]) as Hblocks.
  { rewrite compile_blocks_map, Htokens. cbn [map].
    rewrite (literal_token_compiles _ Hlit). unfold compile_token.
    by rewrite (regexp_match_parameter_token name (Some "number") None
                  Hname eq_refl eq_refl). }
  assert (Forall (clean "/") [lit; pretty z]) as Hcl.
  { constructor; [done|]. constructor; [by split|constructor]. }
  exists (Encode (String "/" (join "/" [lit; pretty z]))). split.
  - rewrite (compile_build_blocks _ _ _ Hblocks). unfold build_blocks.
    cbn [build_loop parameter_block get_param mbind outcome_bind app
         required number_rules].
    rewrite (read_property_own _ _ _ Hr). cbn [truthy].
    assert ((z =? 0)%Z = false) as Hz0 by (by apply Z.eqb_neq).
    rewrite Hz0. cbn [negb andb stringifyParam truthy]. rewrite Hz0.
    cbn [negb toString Number_toString mbind outcome_bind build_loop app].
    rewrite Hsmall. rewrite (filter_truthy_clean _ _ Hcl).
    apply encodeURI_well_formed, assembled_well_formed.
    by repeat constructor.
  - rewrite (compile_parse_blocks _ _ _ Hblocks). unfold parse_blocks.
    rewrite decode_encode
      by (apply assembled_well_formed; by repeat constructor).
    cbn [mbind outcome_bind]. rewrite (segments_rebuild _ _ Hcl).
    cbn [parse_loop parameter_block lookup list_lookup createControls drop].
    rewrite bool_decide_eq_true_2 by done.
    change (drop 0 [pretty z]) with [pretty z].
    rewrite (number_validator _ _ Ht), (number_parser _ _ Ht).
    by rewrite (parseInt_pretty _ Hbound).
Qed.

Lemma number_round_trip_witness :
  well_formed "/order/:no<number>" = true
  /\ segments "/" "/order/:no<number>"
     = ["order"; parameter_token "no" (Some "number") None]
  /\ ({[ "no" := VNumber (Fin (-1024)) ]} : gmap string value) !! "no"
     = Some (VNumber (Fin (-1024)))
  /\ (Z.abs (-1024) < 2 ^ 53)%Z
  /\ exists built,
       compile_build "/order/:no<number>"
         (Some {[ "no" := VNumber (Fin (-1024)) ]}) = Ret built
       /\ compile_parse "/order/:no<number>" built
          = Ret (Some {| path := built;
                         params :=
                           Some (set_property "no" (VNumber (Fin (-1024))) ∅) |}).
Proof.
  split; [reflexivity|]. split; [reflexivity|]. split; [reflexivity|].
  split; [reflexivity|].
  apply (number_round_trip "/order/:no<number>" "order" "no" (-1024)
           {[ "no" := VNumber (Fin (-1024)) ]});
    [reflexivity|reflexivity|reflexivity|reflexivity|reflexivity|lia|reflexivity].
Defined.

(** ** Union parameters *)

(** X22.  On a template made of one literal followed by a required
    parameter whose type is a union of words, [parse] succeeds exactly when
    the first raw segment is the literal and the second is one of the words,
    and then binds the parameter to that word; further segments are not
    looked at.  The binding is the assignment
    [params[name] = ...] of [parse], which for the name [__proto__] sets no
    own key ([set_property]). *)
Theorem union_parameter (template lit name first second input decoded : string)
    (others : list string) (lit' s : string) (rest : list string) :
  segments "/" template
    = [lit; parameter_token name
              (Some (join "|" (first :: second :: others))) None] ->
  mentions_parameter lit = false ->
  word name = true ->
  forallb word (first :: second :: others) = true ->
  decodeURI input = Ret decoded ->
  segments "/" decoded = lit' :: s :: rest ->
  compile_parse template input
  = Ret (if bool_decide (lit' = lit /\ s ∈ first :: second :: others)
         then Some {| path := input;
                      params := Some (set_property name (VString s) ∅) |}
         else None).
Proof.
  intros Htokens Hlit Hname Hwords Hd Hs.
  assert (compile_blocks template
          = Ret [PartBlock lit;
                 parameter_block name
                   {| required := true;
                      type := TUnion (first :: second :: others);
                      array := None |}]) as Hblocks.
  { rewrite compile_blocks_map, Htokens. cbn [map].
    rewrite (literal_token_compiles _ Hlit).
    by rewrite (union_token_compiles name first second others None
                  Hname Hwords eq_refl). }
  set (values := first :: second :: others) in *.
  set (rules := {| required := true; type := TUnion values; array := None |})
    in *.
  assert (truthy_string s = true) as Hts.
  { pose proof (segments_truthy "/" decoded) as H. rewrite Hs in H.
    apply Forall_cons in H as [_ H]. by apply Forall_cons in H as [? _]. }
  rewrite (compile_parse_blocks _ _ _ Hblocks). unfold parse_blocks.
  rewrite Hd. cbn [mbind outcome_bind]. rewrite Hs.
  cbn [parse_loop parameter_block lookup list_lookup createControls drop].
  change (drop 0 (s :: rest)) with (s :: rest).
  unfold generateValidator, generateParser, baseValidator, baseParser.
  cbn [array rules required type getInput head truthy_input from_option id].
  rewrite Hts. cbn [negb andb].
  destruct (decide (lit' = lit)) as [->|Hne].
  - rewrite bool_decide_eq_true_2 by done.
    destruct (decide (s ∈ values)) as [Hin|Hin].
    + rewrite !bool_decide_eq_true_2 by done. done.
    + rewrite !bool_decide_eq_false_2; [done|by intros [_ ?]|done].
  - rewrite bool_decide_eq_false_2 by congruence.
    rewrite bool_decide_eq_false_2; [done|by intros [? _]].
Qed.

Lemma union_parameter_witness :
  segments "/" "/docs/:lang<en|de|fr>"
    = ["docs"; parameter_token "lang" (Some (join "|" ["en"; "de"; "fr"])) None]
  /\ decodeURI "/docs/de/intro" = Ret "/docs/de/intro"
  /\ segments "/" "/docs/de/intro" = "docs" :: "de" :: ["intro"]
  /\ compile_parse "/docs/:lang<en|de|fr>" "/docs/de/intro"
     = Ret (Some {| path := "/docs/de/intro";
                    params := Some {[ "lang" := VString "de" ]} |}).
Proof.
  repeat (split; [reflexivity|]).
  rewrite (union_parameter "/docs/:lang<en|de|fr>" "docs" "lang" "en" "de"
             "/docs/de/intro" "/docs/de/intro" ["fr"] "docs" "de" ["intro"]);
    [vm_compute|..]; reflexivity.
Defined.

(** ** An array parameter before a literal *)

(** X23.  An array parameter does not move the position of the descriptors
    behind it: on a template made of a string parameter with the modifier
    '*' followed by one literal, [parse] compares the literal with the second
    raw segment, and on a match binds the parameter to all the raw segments
    of the input, that second one and the ones behind it included.  The binding is the assignment
    [params[name] = ...] of [parse], which for the name [__proto__] sets no
    own key ([set_property]). *)
Theorem array_before_literal (template name lit input decoded : string) :
  segments "/" template = [parameter_token name None (Some "*"%char); lit] ->
  mentions_parameter lit = false ->
  word name = true ->
  decodeURI input = Ret decoded ->
  compile_parse template input
  = Ret (if bool_decide (segments "/" decoded !! 1 = Some lit)
         then Some {| path := input;
                      params :=
                        Some (set_property name
                                (VArray (map VString (segments "/" decoded)))
                                ∅) |}
         else None).
Proof.
  intros Htokens Hlit Hname Hd.
  set (rules := with_array plain_rules zero_or_more).
  assert (compile_blocks template
          = Ret [parameter_block name rules; PartBlock lit]) as Hblocks.
  { rewrite compile_blocks_map, Htokens. cbn [map].
    rewrite (literal_token_compiles _ Hlit). unfold compile_token.
    by rewrite (regexp_match_parameter_token name None (Some "*"%char)
                  Hname eq_refl eq_refl). }
  pose proof (segments_truthy "/" decoded) as Htruthy.
  rewrite (compile_parse_blocks _ _ _ Hblocks). unfold parse_blocks.
  rewrite Hd. cbn [mbind outcome_bind].
  cbn [parse_loop parameter_block createControls].
  change (createControls (segments "/" decoded) 0) with (segments "/" decoded).
  rewrite (star_validator rules eq_refl _ Htruthy),
          (star_parser rules eq_refl _ Htruthy).
  destruct (string_items_valid rules _ eq_refl Htruthy) as [-> ->].
  cbn [negb from_option id].
  destruct (decide (segments "/" decoded !! 1 = Some lit)) as [E|E].
  - rewrite (bool_decide_eq_true_2 (Some lit = _)) by done.
    by rewrite bool_decide_eq_true_2.
  - rewrite (bool_decide_eq_false_2 (Some lit = _)) by congruence.
    by rewrite bool_decide_eq_false_2.
Qed.

Lemma array_before_literal_witness :
  segments "/" "/:path*/edit" = [parameter_token "path" None (Some "*"%char); "edit"]
  /\ decodeURI "/a/edit/b" = Ret "/a/edit/b"
  /\ compile_parse "/:path*/edit" "/a/edit/b"
     = Ret (Some {| path := "/a/edit/b";
                    params :=
                      Some {[ "path" := VArray [VString "a"; VString "edit";
                                                VString "b"] ]} |}).
Proof.
  repeat (split; [reflexivity|]).
  rewrite (array_before_literal "/:path*/edit" "path" "edit" "/a/edit/b"
             "/a/edit/b"); [vm_compute|..]; reflexivity.
Defined.

(** ** The shape of a built path *)

Lemma escape_uri_chars c : all_chars uri_char (escape c) = true.
Proof. destruct c as [[] [] [] [] [] [] [] []]; reflexivity. Qed.

Lemma Encode_uri_chars s : all_chars uri_char (Encode s) = true.
Proof.
  induction s as [|c s IH]; [done|]. cbn [Encode].
  destruct (uri_reserved c || uri_unescaped c) eqn:Hc.
  - cbn [all_chars]. unfold uri_char at 1. by rewrite Hc, IH.
  - by rewrite all_chars_app, escape_uri_chars, IH.
Qed.

(** X24.  Every path [build] returns begins with '/' and consists only of
    unreserved characters, reserved characters and percent escapes: it holds
    no space, no control character and no byte outside ASCII, whatever the
    record holds. *)
Theorem built_path_shape (template : string)
    (args : option (gmap string value)) (built : string) :
  compile_build template args = Ret built ->
  (exists rest, built = String "/" rest)
  /\ all_chars uri_char built = true.
Proof.
  rewrite (compile_build_blocks _ _ _ (compile_blocks_map template)).
  unfold build_blocks.
  destruct (build_loop _ args []) as [result|]; [|done].
  cbn [mbind outcome_bind]. intros [_ ->]%encodeURI_returns. split.
  - by eexists.
  - apply Encode_uri_chars.
Qed.

Lemma built_path_shape_witness :
  compile_build "/search/:q" (Some {[ "q" := VString "a b" ]})
    = Ret "/search/a%20b"
  /\ (exists rest, "/search/a%20b" = String "/" rest)
  /\ all_chars uri_char "/search/a%20b" = true.
Proof.
  split; [vm_compute; reflexivity|].
  apply (built_path_shape "/search/:q" (Some {[ "q" := VString "a b" ]})).
  vm_compute. reflexivity.
Defined.
